(** * River-Hacks / my-app: the "test emergency" announcement of [App.jsx]

    A shallow embedding of the decision logic of [src/my-app/src/App.jsx]:
    the two catalog tables [EMERGENCY_PHRASE] and [COUNTRY_LANGS], the voice
    resolver [pickVoiceFor], the country resolver [reverseCountryCode] and
    the orchestrator [speakTestEmergencyAt] with its voice-list poll; then
    the weather panel ([reversePlace], [fetchWeather], [WX],
    [handleWeatherClick], [WeatherInfoCard]) and the state updates of the
    click ripples ([addRipple]).

    Modelling conventions.
    - A JavaScript string is a [string] holding the UTF-8 bytes of the
      source text.  [toLowerCase] and [toUpperCase] are modelled on the
      ASCII letters (the alphabet of language tags and country codes); the
      other bytes are left as they are.
    - A JavaScript object literal used as a table is a [gmap] of its own
      properties; [undefined] and [null] are [None].
    - Numbers that are only stored ([rate], [pitch]) are binary64 floats.
    - An [async] function is a computation over the chronological trace of
      the browser effects it performs ([alert], [getVoices], [setTimeout],
      [fetch], [speak], [setWeatherBox]) that either fulfils with a value
      or rejects; [await], [Promise.all] and [try]/[catch] are functions
      on such computations.
    - The fields read from a JSON answer are strings where they are
      present.  The one method called on such a field is the [toUpperCase]
      of [country_code]; there the answers in which the field is truthy
      and not a string are modelled as well, since the call throws on
      them. *)

From Stdlib Require Import PrimFloat Ascii.
From stdpp Require Import gmap strings list.
From Equations Require Import Equations.

Set Warnings "-inexact-float".

(** ** Strings *)

(** [s.startsWith(p)], by recursion on the searched prefix [p]. *)
Fixpoint startsWith (s p : string) : bool :=
  match p with
  | EmptyString => true
  | String c p' =>
      match s with
      | EmptyString => false
      | String d s' => Ascii.eqb c d && startsWith s' p'
      end
  end.

Definition isAsciiUpper (c : ascii) : bool :=
  let n := nat_of_ascii c in (65 <=? n) && (n <=? 90).

Definition isAsciiLower (c : ascii) : bool :=
  let n := nat_of_ascii c in (97 <=? n) && (n <=? 122).

Definition lowerChar (c : ascii) : ascii :=
  if isAsciiUpper c then ascii_of_nat (nat_of_ascii c + 32) else c.

Definition upperChar (c : ascii) : ascii :=
  if isAsciiLower c then ascii_of_nat (nat_of_ascii c - 32) else c.

Fixpoint mapString (f : ascii -> ascii) (s : string) : string :=
  match s with
  | EmptyString => EmptyString
  | String c s' => String (f c) (mapString f s')
  end.

(** [toLowerCase] and [toUpperCase] as they act on ASCII text, where they
    change the letters A-Z and a-z and nothing else.  The case mapping of
    other text is not modelled: the bytes of a non-ASCII character are
    left as they are. *)
Definition toLowerCase : string -> string := mapString lowerChar.
Definition toUpperCase : string -> string := mapString upperChar.

(** [s] is ASCII text: the strings on which the two functions above are
    the JavaScript ones. *)
Fixpoint isAscii (s : string) : bool :=
  match s with
  | EmptyString => true
  | String c s' => (nat_of_ascii c <? 128) && isAscii s'
  end.

(** No byte of [s] is an ASCII lowercase letter. *)
Fixpoint noLowercase (s : string) : bool :=
  match s with
  | EmptyString => true
  | String c s' => negb (isAsciiLower c) && noLowercase s'
  end.

(** Truthiness of a possibly missing string: [undefined], [null] and the
    empty string are falsy. *)
Definition truthy (o : option string) : bool :=
  match o with
  | Some s => negb (String.eqb s "")
  | None => false
  end.

(** [a || b] on possibly missing strings. *)
Definition orElse (a b : option string) : option string :=
  if truthy a then a else b.

(** ** Language Catalog *)

(** The property names every object inherits from [Object.prototype]; the
    tables below are consulted only with keys outside this list (see
    [uppercased_key_not_inherited] and [language_codes_not_inherited]). *)
Definition Object_prototype_keys : list string :=
  ["constructor"; "hasOwnProperty"; "isPrototypeOf"; "propertyIsEnumerable";
   "toLocaleString"; "toString"; "valueOf"; "__proto__";
   "__defineGetter__"; "__defineSetter__";
   "__lookupGetter__"; "__lookupSetter__"].

Definition EMERGENCY_PHRASE_entries : list (string * string) :=
  [("en", "THIS IS A TEST EMERGENCY");
   ("es", "ESTA ES UNA EMERGENCIA DE PRUEBA");
   ("zh", "这是一条测试紧急通知");
   ("hi", "यह एक परीक्षण आपातकाल है");
   ("ar", "هذه حالة طوارئ تجريبية");
   ("fr", "Ceci est une alerte d’urgence de test");
   ("vi", "ĐÂY LÀ TÌNH HUỐNG KHẨN CẤP THỬ NGHIỆM");
   ("pt", "ISTO É UMA EMERGÊNCIA DE TESTE");
   ("ru", "ЭТО ТЕСТОВОЕ ЧРЕЗВЫЧАЙНОЕ СООБЩЕНИЕ");
   ("ja", "これはテスト緊急放送です");
   ("ko", "이것은 시험 비상 안내입니다");
   ("de", "DIES IST EINE TEST-NOTFALLMELDUNG");
   ("tl", "ITO AY ISANG PAGSUSUBOK NA EMERHENSIYA");
   ("ur", "یہ ایک آزمائشی ہنگامی صورتحال ہے");
   ("fa", "این یک وضعیت اضطراری آزمایشی است");
   ("tr", "BU BİR DENEME ACİL DURUMU");
   ("it", "QUESTO È UN’EMERGENZA DI PROVA");
   ("pl", "TO JEST TESTOWY ALARM");
   ("nl", "Dit is een test-noodmelding");
   ("pa", "ਇਹ ਇੱਕ ਟੈਸਟ ਐਮਰਜੈਂਸੀ ਹੈ");
   ("bn", "এটি একটি পরীক্ষামূলক জরুরি অবস্থা");
   ("ta", "இது ஒரு சோதனை அவசர நிலை");
   ("te", "ఇది ఒక పరీక్ష అత్యవసర పరిస్థితి");
   ("mr", "ही एक चाचणी आपत्कालीन स्थिती आहे")].

Definition EMERGENCY_PHRASE : gmap string string :=
  list_to_map EMERGENCY_PHRASE_entries.

Definition COUNTRY_LANGS_entries : list (string * list string) :=
  [("US", ["en";"es";"zh";"vi";"ar"]);
   ("CA", ["en";"fr";"zh";"pa";"es"]);
   ("MX", ["es";"en";"zh";"fr";"de"]);
   ("BR", ["pt";"en";"es";"fr";"de"]);
   ("GB", ["en";"pl";"pa";"ur";"ar"]);
   ("AU", ["en";"zh";"it";"vi";"el"]);
   ("IN", ["hi";"en";"bn";"te";"ta"]);
   ("CN", ["zh";"yue";"en";"ko";"ru"]);
   ("JP", ["ja";"en";"zh";"ko";"pt"]);
   ("KR", ["ko";"en";"zh";"ja";"vi"]);
   ("FR", ["fr";"en";"es";"ar";"pt"]);
   ("DE", ["de";"en";"tr";"ru";"pl"]);
   ("ES", ["es";"en";"ca";"gl";"fr"]);
   ("IT", ["it";"en";"fr";"es";"ro"]);
   ("PT", ["pt";"en";"es";"fr";"uk"]);
   ("RU", ["ru";"en";"uk";"tt";"az"]);
   ("VN", ["vi";"en";"zh";"fr";"ko"]);
   ("PH", ["tl";"en";"zh";"es";"ko"]);
   ("TR", ["tr";"en";"ku";"ar";"fa"]);
   ("IR", ["fa";"az";"ku";"ps";"en"]);
   ("PK", ["ur";"pa";"sd";"ps";"en"]);
   ("SA", ["ar";"en";"ur";"fa";"hi"]);
   ("NG", ["en";"yo";"ig";"ha";"fr"])].

Definition COUNTRY_LANGS : gmap string (list string) :=
  list_to_map COUNTRY_LANGS_entries.

(** The list literal of line 129. *)
Definition DEFAULT_LANGS : list string := ["en";"es";"fr";"ar";"zh"].

(** [COUNTRY_LANGS[cc] || ["en","es","fr","ar","zh"]]: an array is truthy
    whatever its length, so the right operand is taken exactly when the
    table has no entry. *)
Definition languagesFor (cc : string) : list string :=
  match COUNTRY_LANGS !! cc with
  | Some langs => langs
  | None => DEFAULT_LANGS
  end.

(** [EMERGENCY_PHRASE[code] || EMERGENCY_PHRASE.en]. *)
Definition phraseFor (code : string) : option string :=
  orElse (EMERGENCY_PHRASE !! code) (EMERGENCY_PHRASE !! "en").

(** ** Voices and utterances *)

(** A [SpeechSynthesisVoice]; [lang] is read through [v.lang && ...] and
    [v.lang?.], so it may be missing. *)
Record Voice := mkVoice {
  name : string;
  lang : option string
}.

Record Utterance := mkUtterance {
  text : string;
  voice : option Voice;
  rate : float;
  pitch : float
}.

(** The callback of [voices.filter] in [pickVoiceFor]. *)
Definition tagMatches (langCode : string) (v : Voice) : bool :=
  match lang v with
  | Some l =>
      negb (String.eqb l "")
      && startsWith (toLowerCase l) (toLowerCase langCode)
  | None => false
  end.

(** [v.lang?.startsWith(p)], read as a condition. *)
Definition tagStartsWith (p : string) (v : Voice) : bool :=
  match lang v with
  | Some l => startsWith l p
  | None => false
  end.

Definition pickVoiceFor (langCode : string) (voices : list Voice)
  : option Voice :=
  let cand := List.filter (tagMatches langCode) voices in
  match cand with
  | v :: _ => Some v
  | [] =>
      if String.eqb langCode "yue" then List.find (tagStartsWith "zh") voices
      else if String.eqb langCode "tl" then List.find (tagStartsWith "fil") voices
      else List.find (tagStartsWith "en") voices
  end.

(** ** Browser effects *)

Inductive Event :=
| EvAlert (msg : string)
| EvGetVoices
| EvSetTimeout (ms : nat)
| EvFetch (url : string)
| EvSpeak (u : Utterance).

Definition Trace := list Event.

(** Reasons for which the promise of [speakTestEmergencyAt] rejects: the
    request fails, the answer is not JSON, or [toUpperCase] is called on a
    value that has no such method. *)
Inductive Rejection :=
| FetchFailed
| JsonFailed
| TypeError.

Inductive Outcome (A : Type) :=
| Fulfilled (a : A)
| Rejected (r : Rejection).
Arguments Fulfilled {A} a.
Arguments Rejected {A} r.

(** A computation: from the trace so far to an outcome and the trace
    extended with the effects performed. *)
Definition M (A : Type) : Type := Trace -> Outcome A * Trace.

Definition ret {A} (a : A) : M A := fun tr => (Fulfilled a, tr).

Definition bind {A B} (m : M A) (k : A -> M B) : M B :=
  fun tr =>
    match m tr with
    | (Fulfilled a, tr') => k a tr'
    | (Rejected r, tr') => (Rejected r, tr')
    end.

Definition reject {A} (r : Rejection) : M A := fun tr => (Rejected r, tr).

Definition emit (e : Event) : M unit := fun tr => (Fulfilled tt, tr ++ [e]).

Declare Scope js_scope.
Delimit Scope js_scope with js.
Notation "x <- m ;; k" := (bind m (fun x => k))
  (at level 100, m at next level, right associativity) : js_scope.
Notation "m ;; k" := (bind m (fun _ => k))
  (at level 100, right associativity) : js_scope.
Open Scope js_scope.

Definition isGetVoices (e : Event) : bool :=
  match e with EvGetVoices => true | _ => false end.

(** Number of [getVoices] calls recorded in a trace. *)
Definition queries (tr : Trace) : nat := length (List.filter isGetVoices tr).

(** Total delay requested through [setTimeout], in milliseconds. *)
Fixpoint delay (tr : Trace) : nat :=
  match tr with
  | [] => 0
  | EvSetTimeout ms :: tr' => ms + delay tr'
  | _ :: tr' => delay tr'
  end.

(** The utterances handed to [synth.speak], in order. *)
Fixpoint spoken (tr : Trace) : list Utterance :=
  match tr with
  | [] => []
  | EvSpeak u :: tr' => u :: spoken tr'
  | _ :: tr' => spoken tr'
  end.

(** The synthesis device: the voice list it answers to its [k]-th
    [getVoices] call (the list may fill in while the page runs). *)
Record SpeechSynthesis := mkSynth {
  voicesAt : nat -> list Voice
}.

(** The part of a reverse-geocoding answer that [reverseCountryCode]
    reads, for an answer whose [country_code] is a string ([Some]), or is
    missing or a falsy value that [|| ""] replaces ([None]). *)
Record Address := mkAddress {
  country_code : option string
}.

Record GeoData := mkGeoData {
  address : option Address
}.

(** The JSON values that are truthy and are not strings. *)
Inductive NonString :=
| JsTrue
| JsNumber
| JsArray
| JsObject.

(** [res.json()]: a syntax error, or the parsed body.  [JsonData data] is
    a body whose [address.country_code] is missing, falsy or a string (a
    [null] body is [None]); [JsonNonStringCode v] is a body whose
    [address.country_code] is the truthy value [v], which is not a
    string. *)
Inductive JsonResult :=
| JsonSyntaxError
| JsonData (data : option GeoData)
| JsonNonStringCode (v : NonString).

Inductive FetchResult :=
| NetworkError
| HttpResponse (json : JsonResult).

Record Env := mkEnv {
  speechSynthesis : option SpeechSynthesis;
  fetch : string -> FetchResult
}.

Definition alert (msg : string) : M unit := emit (EvAlert msg).

Definition getVoices (synth : SpeechSynthesis) : M (list Voice) :=
  fun tr => (Fulfilled (voicesAt synth (queries tr)), tr ++ [EvGetVoices]).

Definition setTimeout (ms : nat) : M unit := emit (EvSetTimeout ms).

Definition speak (u : Utterance) : M unit := emit (EvSpeak u).

Definition doFetch (env : Env) (url : string) : M JsonResult :=
  fun tr =>
    match fetch env url with
    | NetworkError => (Rejected FetchFailed, tr ++ [EvFetch url])
    | HttpResponse j => (Fulfilled j, tr ++ [EvFetch url])
    end.

(** ** Location-to-Country Resolver *)

(** [data?.address?.country_code]. *)
Definition countryField (data : option GeoData) : option string :=
  match data with
  | Some d =>
      match address d with
      | Some a => country_code a
      | None => None
      end
  | None => None
  end.

(** [(data?.address?.country_code || "").toUpperCase()], for a body whose
    [country_code] is missing, falsy or a string. *)
Definition countryOf (data : option GeoData) : string :=
  toUpperCase (default "" (orElse (countryField data) (Some ""))).

Definition reverseUrl (lat lon : string) : string :=
  "https://nominatim.openstreetmap.org/reverse?lat=" +:+ lat +:+ "&lon="
  +:+ lon +:+ "&format=json&zoom=3&addressdetails=1".

(** [lat] and [lon] are the decimal renderings that the template literal
    splices into the URL.  [await res.json()] rejects on a syntax error;
    [(... || "").toUpperCase()] throws when the operand of [||] is truthy
    and not a string, which rejects the promise as well. *)
Definition reverseCountryCode (env : Env) (lat lon : string) : M string :=
  res <- doFetch env (reverseUrl lat lon) ;;
  match res with
  | JsonSyntaxError => reject JsonFailed
  | JsonData data => ret (countryOf data)
  | JsonNonStringCode _ => reject TypeError
  end.

(** ** Emergency Announcement Orchestrator *)

(** [voices.length] read as a condition. *)
Definition nonEmpty {A} (l : list A) : bool :=
  match l with [] => false | _ :: _ => true end.

(** The closure [waitVoices] of the promise at lines 117-125; [tries] is
    the captured counter.  [tries++ > 10] compares the value before the
    increment; the loop resolves, or re-arms itself after 200 ms. *)
Equations waitVoices (synth : SpeechSynthesis) (tries : nat) : M unit
  by wf (11 - tries) lt :=
  waitVoices synth tries :=
    voices <- getVoices synth ;;
    if nonEmpty voices then ret tt
    else match gt_dec tries 10 with
         | left _ => ret tt
         | right _ => setTimeout 200 ;; waitVoices synth (S tries)
         end.
Next Obligation. lia. Qed.

(** The callback of [langs.forEach]. *)
Definition utteranceFor (voices : list Voice) (code : string) : Utterance :=
  let text := default "" (phraseFor code) in
  let voice := pickVoiceFor code voices in
  {| text := text; voice := voice; rate := 0.95%float; pitch := 1.0%float |}.

Fixpoint forEach {A} (l : list A) (f : A -> M unit) : M unit :=
  match l with
  | [] => ret tt
  | x :: l' => f x ;; forEach l' f
  end.

Definition speakTestEmergencyAt (env : Env) (lat lon : string) : M unit :=
  match speechSynthesis env with
  | None => alert "Speech Synthesis not supported in this browser."
  | Some synth =>
      waitVoices synth 0 ;;
      voices <- getVoices synth ;;
      cc <- reverseCountryCode env lat lon ;;
      let langs := take 5 (languagesFor cc) in
      forEach langs (fun code => speak (utteranceFor voices code))
  end.

(** Running the click handler from the empty trace. *)
Definition run (env : Env) (lat lon : string) : Outcome unit * Trace :=
  speakTestEmergencyAt env lat lon [].

(** ** Specification vocabulary and sample data *)

(** [r] is the first element of [l] that satisfies [P], or [None] when no
    element does. *)
Definition firstMatch {A} (P : A -> bool) (l : list A) (r : option A) : Prop :=
  match r with
  | Some v =>
      exists pre post,
        l = pre ++ v :: post /\ P v = true /\ Forall (fun w => P w = false) pre
  | None => Forall (fun w => P w = false) l
  end.

(** [n] rounds of the poll: a query that finds nothing, then the timer. *)
Fixpoint pollRounds (n : nat) : Trace :=
  match n with
  | 0 => []
  | S n' => EvGetVoices :: EvSetTimeout 200 :: pollRounds n'
  end.

Definition voice_enUS : Voice := mkVoice "Google US English" (Some "en-US").
Definition voice_deDE : Voice := mkVoice "Google Deutsch" (Some "de-DE").
Definition voice_zhCN : Voice := mkVoice "Google zh-CN" (Some "zh-CN").
Definition voice_zhTW : Voice := mkVoice "Google zh-TW" (Some "zh-TW").
Definition voice_yueHK : Voice := mkVoice "Google yue-HK" (Some "yue-HK").
Definition voice_fil : Voice := mkVoice "Filipino" (Some "fil").
Definition voice_filPH : Voice := mkVoice "Filipino (Philippines)" (Some "fil-PH").

(** A device whose voice list never fills in. *)
Definition silentSynth : SpeechSynthesis := mkSynth (fun _ => []).

(** A parsed answer whose [address.country_code] is [code]. *)
Definition geoData (code : string) : option GeoData :=
  Some (mkGeoData (Some (mkAddress (Some code)))).

(** A geocoder that answers every request with country code [code]. *)
Definition fetchAlways (code : string) : string -> FetchResult :=
  fun _ => HttpResponse (JsonData (geoData code)).

(** ** Vocabulary for the traces of a click *)

Definition isPollEvent (e : Event) : bool :=
  match e with
  | EvGetVoices => true
  | EvSetTimeout ms => ms =? 200
  | _ => false
  end.

Definition isSpeak (e : Event) : bool :=
  match e with EvSpeak _ => true | _ => false end.

(** A click that rejects with [r] without having enqueued an utterance or
    shown an alert. *)
Definition rejectedQuietly (result : Outcome unit * Trace) (r : Rejection)
  : Prop :=
  fst result = Rejected r
  /\ spoken (snd result) = []
  /\ Forall (fun e => forall msg, e <> EvAlert msg) (snd result).

(** A device whose voice list fills in at its [k]-th query. *)
Definition lateSynth (k : nat) : SpeechSynthesis :=
  mkSynth (fun i => if i <? k then [] else [voice_enUS; voice_zhCN]).

(** ** Place and weather lookup (lines 169-275) *)

Module Weather.

(** What the promises of this part settle to; [TypeFailure] is the
    [TypeError] of a property read on [null] or of a call of a method that
    the value does not have. *)
Inductive Failure :=
| NetworkFailure
| SyntaxFailure
| TypeFailure.

Inductive Settled (A : Type) :=
| Resolved (a : A)
| Failed (e : Failure).
Arguments Resolved {A} a.
Arguments Failed {A} e.

(** The value of [country_code] in an address: a string, or a value that
    is truthy and is not a string, on which line 190 calls [toUpperCase].
    The falsy values other than the empty string are read as a missing
    field: [|| ""] replaces them alike. *)
Inductive CodeValue :=
| CodeString (s : string)
| CodeOther (v : NonString).

(** The fields of [data.address] that [reversePlace] reads.  The first
    seven are only tested with [||] and printed by [join]. *)
Record AddressObject := mkAddressObject {
  city : option string;
  town : option string;
  village : option string;
  hamlet : option string;
  county : option string;
  state : option string;
  region : option string;
  country_code : option CodeValue
}.

(** The fields of [j.current_weather] that [fetchWeather] reads. *)
Record CurrentWeather := mkCurrentWeather {
  temperature : option float;
  windspeed : option float;
  weathercode : option Z
}.

(** A parsed JSON object, seen through the fields the two lookups read. *)
Record JsonObject := mkJsonObject {
  address : option AddressObject;
  current_weather : option CurrentWeather;
  timezone : option string
}.

(** [fetch(url)] followed by [res.json()]: the request fails, the body is
    not JSON, or the body parses ([null] is [None]). *)
Inductive Fetched :=
| FetchError
| JsonError
| JsonBody (data : option JsonObject).

(** The literal [{}] read as an address, and as a current weather. *)
Definition noAddress : AddressObject :=
  mkAddressObject None None None None None None None None.

Definition noReadings : CurrentWeather := mkCurrentWeather None None None.

(** A string that is known to be present. *)
Definition str (o : option string) : string := default "" o.

(** [Boolean(s)] on a string. *)
Definition nonEmptyString (s : string) : bool := negb (String.eqb s "").

(** [parts.join(sep)]. *)
Fixpoint join (sep : string) (parts : list string) : string :=
  match parts with
  | [] => ""
  | s :: rest =>
      match rest with
      | [] => s
      | _ :: _ => s +:+ sep +:+ join sep rest
      end
  end.

Record Place := mkPlace {
  placeName : string;
  cc : string
}.

Definition placeUrl (lat lon : string) : string :=
  "https://nominatim.openstreetmap.org/reverse?lat=" +:+ lat +:+ "&lon="
  +:+ lon +:+ "&format=json&zoom=10&addressdetails=1".

(** [a.city || a.town || a.village || a.hamlet || a.county || ""]. *)
Definition cityOf (a : AddressObject) : string :=
  str (orElse (orElse (orElse (orElse (orElse (city a) (town a)) (village a))
                         (hamlet a)) (county a)) (Some "")).

(** [a.state || a.region || ""]. *)
Definition stateOf (a : AddressObject) : string :=
  str (orElse (orElse (state a) (region a)) (Some "")).

(** [data?.address || {}]. *)
Definition addressOf (data : option JsonObject) : AddressObject :=
  match data with
  | Some d => match address d with Some a => a | None => noAddress end
  | None => noAddress
  end.

(** [a.country_code] when it is a string. *)
Definition codeString (a : AddressObject) : option string :=
  match country_code a with
  | Some (CodeString s) => Some s
  | Some (CodeOther _) => None
  | None => None
  end.

(** The place that the body of [reversePlace] builds after [res.json()],
    from an address whose [country_code] is missing, falsy or a string. *)
Definition placeOf (data : option JsonObject) : Place :=
  let a := addressOf data in
  let cc := toUpperCase (str (orElse (codeString a) (Some ""))) in
  {| placeName :=
       join ", " (List.filter nonEmptyString [cityOf a; stateOf a; cc]);
     cc := cc |}.

(** [(a.country_code || "").toUpperCase()] throws when the field is truthy
    and not a string: no place is built, and the promise rejects. *)
Definition reversePlace (fetch : string -> Fetched) (lat lon : string)
  : Settled Place :=
  match fetch (placeUrl lat lon) with
  | FetchError => Failed NetworkFailure
  | JsonError => Failed SyntaxFailure
  | JsonBody data =>
      match country_code (addressOf data) with
      | Some (CodeOther _) => Failed TypeFailure
      | Some (CodeString _) => Resolved (placeOf data)
      | None => Resolved (placeOf data)
      end
  end.

Record Report := mkReport {
  report_temperature : option float;
  report_windspeed : option float;
  report_weathercode : option Z;
  report_timezone : string
}.

Definition weatherUrl (lat lon : string) : string :=
  "https://api.open-meteo.com/v1/forecast?latitude=" +:+ lat
  +:+ "&longitude=" +:+ lon +:+ "&current_weather=true&timezone=auto".

(** The body of [fetchWeather] after [res.json()], for a body that is an
    object. *)
Definition reportOf (j : JsonObject) : Report :=
  let cw := match current_weather j with
            | Some cw => cw
            | None => noReadings
            end in
  {| report_temperature := temperature cw;
     report_windspeed := windspeed cw;
     report_weathercode := weathercode cw;
     report_timezone := str (orElse (timezone j) (Some "UTC")) |}.

(** [j.current_weather] is read without [?.]: on a [null] body it throws. *)
Definition fetchWeather (fetch : string -> Fetched) (lat lon : string)
  : Settled Report :=
  match fetch (weatherUrl lat lon) with
  | FetchError => Failed NetworkFailure
  | JsonError => Failed SyntaxFailure
  | JsonBody None => Failed TypeFailure
  | JsonBody (Some j) => Resolved (reportOf j)
  end.

Definition WX_entries : list (Z * string) :=
  [(0, "Clear"); (1, "Mainly clear"); (2, "Partly cloudy"); (3, "Overcast");
   (45, "Fog"); (48, "Rime fog");
   (51, "Light drizzle"); (53, "Drizzle"); (55, "Heavy drizzle");
   (56, "Freezing drizzle"); (57, "Freezing drizzle+");
   (61, "Light rain"); (63, "Rain"); (65, "Heavy rain");
   (66, "Freezing rain"); (67, "Freezing rain+");
   (71, "Light snow"); (73, "Snow"); (75, "Heavy snow"); (77, "Snow grains");
   (80, "Light showers"); (81, "Showers"); (82, "Heavy showers");
   (85, "Snow showers"); (86, "Snow showers+");
   (95, "Thunderstorm"); (96, "Thunderstorm w/ hail");
   (99, "Thunderstorm w/ heavy hail")]%Z.

Definition WX : gmap Z string := list_to_map WX_entries.

(** [WX[weathercode] || "—"]; an [undefined] code names no entry. *)
Definition conditionsOf (code : option Z) : string :=
  str (orElse (code ≫= (WX !!.)) (Some "—")).

(** The state held by [weatherBox]; [clickedAt] is a [Date], here the
    instant it denotes. *)
Record WeatherBox := mkWeatherBox {
  loading : bool;
  error : option string;
  box_placeName : option string;
  box_temperature : option float;
  box_windspeed : option float;
  box_weathercode : option Z;
  box_timezone : option string;
  clickedAt : option nat
}.

(** [{ loading: true, clickedAt: new Date() }]. *)
Definition loadingBox (t : nat) : WeatherBox :=
  mkWeatherBox true None None None None None None (Some t).

(** [{ loading: false, error: "Couldn’t fetch weather right now." }]. *)
Definition errorBox : WeatherBox :=
  mkWeatherBox false (Some "Couldn’t fetch weather right now.")
    None None None None None None.

Definition loadedBox (place : Place) (w : Report) (t : nat) : WeatherBox :=
  mkWeatherBox false None (Some (placeName place))
    (report_temperature w) (report_windspeed w) (report_weathercode w)
    (Some (report_timezone w)) (Some t).

Inductive UiEvent :=
| SetWeatherBox (box : WeatherBox)
| Fetch (url : string).

(** A promise of this part: run after the log of what the page has done
    so far, it adds what it does and settles. *)
Definition Promise (A : Type) : Type :=
  list UiEvent -> Settled A * list UiEvent.

(** [const x = await p; ...] in an [async] function: a rejection of [p] is
    thrown at the [await], and the rest is skipped. *)
Definition await {A B} (p : Promise A) (rest : A -> Promise B) : Promise B :=
  fun log =>
    match p log with
    | (Resolved a, log') => rest a log'
    | (Failed e, log') => (Failed e, log')
    end.

(** [try { body } catch (e) { handler }]. *)
Definition tryCatch {A} (body : Promise A) (handler : Failure -> Promise A)
  : Promise A :=
  fun log =>
    match body log with
    | (Resolved a, log') => (Resolved a, log')
    | (Failed e, log') => handler e log'
    end.

Definition setWeatherBox (box : WeatherBox) : Promise unit :=
  fun log => (Resolved tt, log ++ [SetWeatherBox box]).

(** A call of one of the two lookups: the request goes out during the
    call, and the promise that the call returns settles as the lookup
    does. *)
Definition reversePlaceCall (fetch : string -> Fetched) (lat lon : string)
  : Promise Place :=
  fun log => (reversePlace fetch lat lon, log ++ [Fetch (placeUrl lat lon)]).

Definition fetchWeatherCall (fetch : string -> Fetched) (lat lon : string)
  : Promise Report :=
  fun log => (fetchWeather fetch lat lon, log ++ [Fetch (weatherUrl lat lon)]).

(** Which of two pending promises settles first. *)
Inductive Order :=
| FirstThenSecond
| SecondThenFirst.

(** [Promise.all([p, q])].  The array is evaluated before [Promise.all] is
    called, so both calls are made, in order, whatever becomes of them.
    The result resolves with both values when both promises resolve;
    otherwise it rejects, with the reason of the promise that rejects
    first. *)
Definition promiseAll {A B} (order : Order) (p : Promise A) (q : Promise B)
  : Promise (A * B) :=
  fun log =>
    let '(ra, log1) := p log in
    let '(rb, log2) := q log1 in
    (match ra, rb with
     | Resolved a, Resolved b => Resolved (a, b)
     | Failed e, Resolved _ => Failed e
     | Resolved _, Failed e => Failed e
     | Failed e1, Failed e2 =>
         Failed match order with
                | FirstThenSecond => e1
                | SecondThenFirst => e2
                end
     end, log2).

(** The [async] function [handleWeatherClick] (lines 259-275).  [t0] and
    [t1] are the two readings of [new Date()]: [t0] at the click (line
    260), [t1] after both lookups have resolved (line 270). *)
Definition handleWeatherClick_promise (order : Order)
  (fetch : string -> Fetched) (lat lon : string) (t0 t1 : nat)
  : Promise unit :=
  await (setWeatherBox (loadingBox t0)) (fun _ =>
  tryCatch
    (await (promiseAll order (reversePlaceCall fetch lat lon)
                             (fetchWeatherCall fetch lat lon))
       (fun '(place, w) => setWeatherBox (loadedBox place w t1)))
    (fun _ => setWeatherBox errorBox)).

(** The log of one click on a page that has done nothing yet. *)
Definition handleWeatherClick (fetch : string -> Fetched) (lat lon : string)
  (t0 t1 : nat) : list UiEvent :=
  snd (handleWeatherClick_promise FirstThenSecond fetch lat lon t0 t1 []).

(** What [Intl.DateTimeFormat(...).format] is asked to print. *)
Record TimeLabel := mkTimeLabel {
  timeZone : option string;
  instant : nat
}.

(** The block shown when the box is neither loading nor in error;
    [temperature] and [windspeed] are shown through [Math.round]. *)
Record Details := mkDetails {
  shownPlace : string;
  shownTime : TimeLabel;
  shownTemperature : option float;
  shownWindspeed : option float;
  shownConditions : string
}.

Record CardView := mkCardView {
  loadingLine : bool;
  errorLine : option string;
  details : option Details
}.

Inductive Rendered :=
| Nothing
| RangeError
| Card (view : CardView).

(** [WeatherInfoCard]: [validTimeZone] tells which names the formatter
    accepts (it throws a [RangeError] on the others), [now] is the reading
    of [new Date()] used when the box has no [clickedAt]. *)
Definition WeatherInfoCard (validTimeZone : string -> bool) (now : nat)
  (box : option WeatherBox) : Rendered :=
  match box with
  | None => Nothing
  | Some b =>
      if truthy (box_timezone b) && negb (validTimeZone (str (box_timezone b)))
      then RangeError
      else
        let timeStr :=
          {| timeZone := if truthy (box_timezone b) then box_timezone b
                         else None;
             instant := default now (clickedAt b) |} in
        Card
          {| loadingLine := loading b;
             errorLine := if truthy (error b) then error b else None;
             details :=
               if negb (loading b) && negb (truthy (error b))
               then Some
                 {| shownPlace :=
                      str (orElse (box_placeName b) (Some "Selected location"));
                    shownTime := timeStr;
                    shownTemperature := box_temperature b;
                    shownWindspeed := box_windspeed b;
                    shownConditions := conditionsOf (box_weathercode b) |}
               else None |}
  end.

(** The three sections of a card, of which exactly one is shown. *)
Definition oneSection (view : CardView) : Prop :=
  (loadingLine view = true /\ errorLine view = None /\ details view = None)
  \/ (loadingLine view = false /\ is_Some (errorLine view)
      /\ details view = None)
  \/ (loadingLine view = false /\ errorLine view = None
      /\ is_Some (details view)).

End Weather.

(** A parsed body as [reverseCountryCode] receives it from [res.json()]. *)
Definition geoResult (data : option Weather.JsonObject) : JsonResult :=
  match data with
  | Some d =>
      match Weather.address d with
      | Some a =>
          match Weather.country_code a with
          | Some (Weather.CodeOther v) => JsonNonStringCode v
          | Some (Weather.CodeString s) =>
              JsonData (Some (mkGeoData (Some (mkAddress (Some s)))))
          | None => JsonData (Some (mkGeoData (Some (mkAddress None))))
          end
      | None => JsonData (Some (mkGeoData None))
      end
  | None => JsonData None
  end.

(** The codes of the country table and of the default list that have no
    entry in the phrase table, each listed once. *)
Definition untranslated : list string :=
  remove_dups
    (List.filter (fun code => bool_decide (EMERGENCY_PHRASE !! code = None))
       (concat (COUNTRY_LANGS_entries.*2) ++ DEFAULT_LANGS)).

(** ** Click ripples (lines 250-258) *)

Module Ripples.

Record Ripple := mkRipple {
  id : string;
  x : float;
  y : float
}.

(** [rs => [...rs, { id, x, y }]]. *)
Definition append (r : Ripple) (rs : list Ripple) : list Ripple := rs ++ [r].

(** [rs => rs.filter(r => r.id !== id)]. *)
Definition remove (i : string) (rs : list Ripple) : list Ripple :=
  List.filter (fun r => negb (String.eqb (id r) i)) rs.

(** The two state updates of one [addRipple]: the one applied at once and
    the one armed through [setTimeout]. *)
Record Scheduled := mkScheduled {
  now : list Ripple -> list Ripple;
  after_ms : nat;
  later : list Ripple -> list Ripple
}.

(** [addRipple]; [i] is the identifier drawn from [Math.random]. *)
Definition addRipple (i : string) (px py : float) : Scheduled :=
  {| now := append (mkRipple i px py);
     after_ms := 750;
     later := remove i |}.

End Ripples.

(** * Properties *)

(** ** Strings *)

Lemma upperChar_not_lower (c : ascii) : isAsciiLower (upperChar c) = false.
Proof. destruct c as [[] [] [] [] [] [] [] []]; vm_compute; reflexivity. Qed.

Lemma toUpperCase_noLowercase (s : string) : noLowercase (toUpperCase s) = true.
Proof.
  induction s as [|c s IH]; simpl; [reflexivity|].
  rewrite upperChar_not_lower. exact IH.
Qed.

(** ** First-match search *)

Lemma find_firstMatch {A} (P : A -> bool) (l : list A) :
  firstMatch P l (List.find P l).
Proof.
  induction l as [|x l IH]; simpl.
  - constructor.
  - destruct (P x) eqn:Hx.
    + exists [], l. repeat split; [assumption | constructor].
    + destruct (List.find P l) as [v|]; simpl in *.
      * destruct IH as (pre & post & -> & Hv & Hpre).
        exists (x :: pre), post. repeat split; [assumption|].
        constructor; assumption.
      * constructor; assumption.
Qed.

Lemma firstMatch_unique {A} (P : A -> bool) (l : list A) (r : option A) :
  firstMatch P l r -> r = List.find P l.
Proof.
  revert r. induction l as [|x l IH]; intros [v|]; simpl.
  - intros ([|? ?] & post & Heq & _); discriminate Heq.
  - reflexivity.
  - intros (pre & post & Heq & Hv & Hpre).
    destruct pre as [|y pre]; simpl in Heq; injection Heq as -> ->.
    + rewrite Hv. reflexivity.
    + inversion Hpre as [|? ? Hy Hpre']; subst. rewrite Hy.
      apply IH. exists pre, post. auto.
  - intros H. inversion H as [|? ? Hx Hl]; subst. rewrite Hx.
    apply (IH None). exact Hl.
Qed.

Lemma filter_nil_Forall {A} (P : A -> bool) (l : list A) :
  List.filter P l = [] <-> Forall (fun w => P w = false) l.
Proof.
  induction l as [|x l IH]; simpl.
  - split; [constructor | reflexivity].
  - destruct (P x) eqn:Hx.
    + split; [discriminate|]. intros H. inversion H; congruence.
    + rewrite IH. split; [constructor; assumption|].
      intros H. inversion H; assumption.
Qed.

Lemma filter_head_find {A} (P : A -> bool) (l : list A) :
  List.find P l = head (List.filter P l).
Proof.
  induction l as [|x l IH]; simpl; [reflexivity|].
  destruct (P x); [reflexivity | exact IH].
Qed.

(** ** Voice Resolver *)

(** Step 1: when some tag matches [langCode] case-insensitively, the first
    such voice is returned, whatever the code. *)
Lemma pickVoiceFor_prefix_match (langCode : string) (voices : list Voice) :
  Exists (fun v => tagMatches langCode v = true) voices ->
  exists v, pickVoiceFor langCode voices = Some v
            /\ firstMatch (tagMatches langCode) voices (Some v).
Proof.
  intros Hex. unfold pickVoiceFor.
  pose proof (find_firstMatch (tagMatches langCode) voices) as Hfirst.
  rewrite filter_head_find in Hfirst.
  destruct (List.filter (tagMatches langCode) voices) as [|v cand] eqn:Hcand.
  - apply filter_nil_Forall in Hcand. exfalso.
    induction Hex as [x l Hx|x l _ IH]; inversion Hcand; subst;
      [congruence | auto].
  - exists v. split; [reflexivity | exact Hfirst].
Qed.

(** Steps 2 to 4: with no case-insensitive prefix match, the code alone
    selects the one search that is run. *)
Lemma pickVoiceFor_no_prefix_match (langCode : string) (voices : list Voice) :
  Forall (fun v => tagMatches langCode v = false) voices ->
  pickVoiceFor langCode voices
  = if String.eqb langCode "yue" then List.find (tagStartsWith "zh") voices
    else if String.eqb langCode "tl" then List.find (tagStartsWith "fil") voices
    else List.find (tagStartsWith "en") voices.
Proof.
  intros Hnone. apply filter_nil_Forall in Hnone.
  unfold pickVoiceFor. rewrite Hnone. reflexivity.
Qed.

(** C1 (as amended): when no voice tag starts with the language code
    case-insensitively, the resolver consults exactly one fallback rule,
    chosen by the code: the first voice tagged "zh..." for "yue", the first
    voice tagged "fil..." for "tl", and the first voice tagged "en..." for
    every other code; it returns absent exactly when that one rule finds
    no voice.  English is not consulted for "yue" and "tl". *)
Theorem pickVoiceFor_fallback_rule (langCode : string) (voices : list Voice) :
  Forall (fun v => tagMatches langCode v = false) voices ->
  (langCode = "yue" ->
     firstMatch (tagStartsWith "zh") voices (pickVoiceFor langCode voices))
  /\ (langCode = "tl" ->
     firstMatch (tagStartsWith "fil") voices (pickVoiceFor langCode voices))
  /\ (langCode <> "yue" -> langCode <> "tl" ->
     firstMatch (tagStartsWith "en") voices (pickVoiceFor langCode voices)).
Proof.
  intros Hnone. rewrite (pickVoiceFor_no_prefix_match _ _ Hnone).
  repeat split.
  - intros ->. simpl. apply find_firstMatch.
  - intros ->. simpl. apply find_firstMatch.
  - intros Hyue Htl.
    apply String.eqb_neq in Hyue, Htl. rewrite Hyue, Htl.
    apply find_firstMatch.
Qed.

Lemma pickVoiceFor_fallback_rule_witness :
  firstMatch (tagStartsWith "en") [voice_deDE; voice_enUS]
    (pickVoiceFor "fr" [voice_deDE; voice_enUS])
  /\ pickVoiceFor "fr" [voice_deDE; voice_enUS] = Some voice_enUS.
Proof.
  split; [|reflexivity].
  apply (pickVoiceFor_fallback_rule "fr" [voice_deDE; voice_enUS]).
  - repeat constructor.
  - discriminate.
  - discriminate.
Defined.

(** C1 (as stated) fails for "yue": with an English voice only, no tag
    starts with "yue" and the "zh" rule finds nothing, a tag starting with
    "en" exists, and yet the resolver returns absent. *)
Lemma pickVoiceFor_yue_skips_english :
  Forall (fun v => tagMatches "yue" v = false) [voice_enUS]
  /\ List.find (tagStartsWith "zh") [voice_enUS] = None
  /\ List.find (tagStartsWith "fil") [voice_enUS] = None
  /\ List.find (tagStartsWith "en") [voice_enUS] = Some voice_enUS
  /\ pickVoiceFor "yue" [voice_enUS] = None
  /\ pickVoiceFor "yue" [voice_enUS]
     <> List.find (tagStartsWith "en") [voice_enUS].
Proof.
  split; [repeat constructor|].
  split; [reflexivity|]. split; [reflexivity|]. split; [reflexivity|].
  split; [reflexivity | discriminate].
Qed.

(** The step-1 filter stays empty when a voice [v] whose tag [Hlang] fixes
    is inserted into a list that had no match. *)
Ltac no_prefix_match Hnone Hlang :=
  apply Forall_app in Hnone as [? ?]; apply Forall_app; split;
  [assumption | constructor; [unfold tagMatches; rewrite Hlang; reflexivity
                             | assumption]].

(** A search returns the voice at [pre ++ _ :: post] when it matches and
    nothing in [pre] does. *)
Ltac first_match_at pre post Hpre Hlang :=
  simpl; symmetry; apply firstMatch_unique; exists pre, post;
  split; [reflexivity|];
  split; [unfold tagStartsWith; rewrite Hlang; reflexivity | exact Hpre].

(** C6 (as amended): for "yue", a voice tagged "zh-CN" is returned when no
    tag of the set starts with "yue" (case-insensitively) and no voice
    before it has a tag starting with "zh"; for "tl", a voice tagged
    "fil-PH" is returned when no tag of the set starts with "tl"
    (case-insensitively) and no voice before it has a tag starting with
    "fil".  The single-voice sets are the case [pre = post = []]. *)
Theorem pickVoiceFor_special_cases (pre post : list Voice) (v : Voice) :
  (lang v = Some "zh-CN" ->
   Forall (fun w => tagMatches "yue" w = false) (pre ++ post) ->
   Forall (fun w => tagStartsWith "zh" w = false) pre ->
   pickVoiceFor "yue" (pre ++ v :: post) = Some v)
  /\ (lang v = Some "fil-PH" ->
   Forall (fun w => tagMatches "tl" w = false) (pre ++ post) ->
   Forall (fun w => tagStartsWith "fil" w = false) pre ->
   pickVoiceFor "tl" (pre ++ v :: post) = Some v).
Proof.
  split; intros Hlang Hnone Hpre.
  - rewrite pickVoiceFor_no_prefix_match by (no_prefix_match Hnone Hlang).
    first_match_at pre post Hpre Hlang.
  - rewrite pickVoiceFor_no_prefix_match by (no_prefix_match Hnone Hlang).
    first_match_at pre post Hpre Hlang.
Qed.

Lemma pickVoiceFor_special_cases_witness :
  pickVoiceFor "yue" [voice_enUS; voice_zhCN; voice_zhTW] = Some voice_zhCN
  /\ pickVoiceFor "tl" [voice_enUS; voice_filPH; voice_fil] = Some voice_filPH
  /\ pickVoiceFor "yue" [voice_zhCN] = Some voice_zhCN
  /\ pickVoiceFor "tl" [voice_filPH] = Some voice_filPH.
Proof.
  split; [|split; [|split]].
  - apply (pickVoiceFor_special_cases [voice_enUS] [voice_zhTW] voice_zhCN);
      [reflexivity | repeat constructor | repeat constructor].
  - apply (pickVoiceFor_special_cases [voice_enUS] [voice_fil] voice_filPH);
      [reflexivity | repeat constructor | repeat constructor].
  - apply (pickVoiceFor_special_cases [] [] voice_zhCN);
      [reflexivity | constructor | constructor].
  - apply (pickVoiceFor_special_cases [] [] voice_filPH);
      [reflexivity | constructor | constructor].
Defined.

(** C6 (as stated) fails: a set may contain a voice tagged "zh-CN" (resp.
    "fil-PH", with no tag starting with "tl") and the resolver still
    returns another voice: the first one whose tag starts with "zh" (resp.
    "fil"), or a voice whose own tag starts with "yue". *)
Lemma pickVoiceFor_returns_earlier_voice :
  (In voice_zhCN [voice_zhTW; voice_zhCN]
   /\ lang voice_zhCN = Some "zh-CN"
   /\ pickVoiceFor "yue" [voice_zhTW; voice_zhCN] = Some voice_zhTW
   /\ voice_zhTW <> voice_zhCN)
  /\ (In voice_zhCN [voice_zhCN; voice_yueHK]
   /\ pickVoiceFor "yue" [voice_zhCN; voice_yueHK] = Some voice_yueHK
   /\ voice_yueHK <> voice_zhCN)
  /\ (In voice_filPH [voice_fil; voice_filPH]
   /\ lang voice_filPH = Some "fil-PH"
   /\ Forall (fun w => tagMatches "tl" w = false) [voice_fil; voice_filPH]
   /\ Forall (fun w => tagStartsWith "tl" w = false) [voice_fil; voice_filPH]
   /\ pickVoiceFor "tl" [voice_fil; voice_filPH] = Some voice_fil
   /\ voice_fil <> voice_filPH).
Proof.
  split; [|split].
  - split; [right; left; reflexivity|].
    split; [reflexivity|]. split; [reflexivity | discriminate].
  - split; [left; reflexivity|]. split; [reflexivity | discriminate].
  - split; [right; left; reflexivity|].
    split; [reflexivity|].
    split; [repeat constructor|].
    split; [repeat constructor|].
    split; [reflexivity | discriminate].
Qed.

(** C7: on the empty voice set the resolver returns absent for every
    language code (it is a total function: no input makes it raise), and
    the utterance built from that result keeps no voice, which leaves the
    device default in place. *)
Theorem pickVoiceFor_no_voices (langCode : string) :
  pickVoiceFor langCode [] = None
  /\ voice (utteranceFor [] langCode) = None.
Proof.
  assert (H : pickVoiceFor langCode [] = None).
  { unfold pickVoiceFor. simpl.
    destruct (String.eqb langCode "yue"); [reflexivity|].
    destruct (String.eqb langCode "tl"); reflexivity. }
  split; [exact H | simpl; exact H].
Qed.

(** ** Language Catalog *)

Lemma COUNTRY_LANGS_keys_NoDup : NoDup (COUNTRY_LANGS_entries.*1).
Proof. compute_done. Qed.

Lemma EMERGENCY_PHRASE_keys_NoDup : NoDup (EMERGENCY_PHRASE_entries.*1).
Proof. compute_done. Qed.

Lemma EMERGENCY_PHRASE_truthy :
  Forall (fun kv => truthy (Some kv.2) = true) EMERGENCY_PHRASE_entries.
Proof. repeat constructor. Qed.

(** The keys of the country table are spelled without lowercase letters,
    and every list of the table has five entries. *)
Lemma COUNTRY_LANGS_shape :
  Forall (fun kv => noLowercase kv.1 = true /\ length kv.2 = 5)
    COUNTRY_LANGS_entries.
Proof. repeat constructor. Qed.

(** An uppercased string is never the name of an inherited property, so
    the lookup [COUNTRY_LANGS[cc]] only ever sees the table's own keys. *)
Lemma uppercased_key_not_inherited (s : string) :
  ~ In (toUpperCase s) Object_prototype_keys.
Proof.
  intros Hin.
  assert (Hkeys : Forall (fun k => noLowercase k = false) Object_prototype_keys)
    by (repeat constructor).
  rewrite List.Forall_forall in Hkeys. apply Hkeys in Hin.
  rewrite toUpperCase_noLowercase in Hin. discriminate.
Qed.

(** The language codes that reach [EMERGENCY_PHRASE[code]] are those of the
    country table and of the default list; none is an inherited name. *)
Lemma language_codes_not_inherited :
  Forall (fun code => ~ In code Object_prototype_keys)
    (DEFAULT_LANGS ++ concat (COUNTRY_LANGS_entries.*2)).
Proof.
  assert (H : Forall (fun code => code ∉ Object_prototype_keys)
                (DEFAULT_LANGS ++ concat (COUNTRY_LANGS_entries.*2)))
    by compute_done.
  eapply Forall_impl; [exact H|].
  intros code Hcode Hin. apply Hcode, list_elem_of_In. exact Hin.
Qed.

Lemma COUNTRY_LANGS_lookup_Some (cc : string) (langs : list string) :
  (cc, langs) ∈ COUNTRY_LANGS_entries <-> COUNTRY_LANGS !! cc = Some langs.
Proof. apply elem_of_list_to_map, COUNTRY_LANGS_keys_NoDup. Qed.

Lemma COUNTRY_LANGS_lookup_None (cc : string) :
  cc ∉ COUNTRY_LANGS_entries.*1 <-> COUNTRY_LANGS !! cc = None.
Proof. apply not_elem_of_list_to_map. Qed.

Lemma EMERGENCY_PHRASE_lookup_Some (code phrase : string) :
  (code, phrase) ∈ EMERGENCY_PHRASE_entries
  <-> EMERGENCY_PHRASE !! code = Some phrase.
Proof. apply elem_of_list_to_map, EMERGENCY_PHRASE_keys_NoDup. Qed.

Lemma EMERGENCY_PHRASE_lookup_None (code : string) :
  code ∉ EMERGENCY_PHRASE_entries.*1 <-> EMERGENCY_PHRASE !! code = None.
Proof. apply not_elem_of_list_to_map. Qed.

(** C2: a country code that is not a key of the country table, and the
    empty string in particular, gets exactly the default sequence
    ["en","es","fr","ar","zh"]; a key of the table gets the ordered list
    configured for it. *)
Theorem languagesFor_lookup (cc : string) :
  (cc ∉ COUNTRY_LANGS_entries.*1 ->
     languagesFor cc = ["en"; "es"; "fr"; "ar"; "zh"])
  /\ (forall langs, (cc, langs) ∈ COUNTRY_LANGS_entries ->
     languagesFor cc = langs)
  /\ languagesFor "" = ["en"; "es"; "fr"; "ar"; "zh"].
Proof.
  unfold languagesFor. split; [|split].
  - intros Habsent. apply COUNTRY_LANGS_lookup_None in Habsent.
    rewrite Habsent. reflexivity.
  - intros langs Hin. apply COUNTRY_LANGS_lookup_Some in Hin.
    rewrite Hin. reflexivity.
  - reflexivity.
Qed.

Lemma languagesFor_lookup_witness :
  languagesFor "ZZ" = ["en"; "es"; "fr"; "ar"; "zh"]
  /\ languagesFor "CN" = ["zh"; "yue"; "en"; "ko"; "ru"].
Proof.
  split.
  - refine (proj1 (languagesFor_lookup "ZZ") _). compute_done.
  - refine (proj1 (proj2 (languagesFor_lookup "CN")) _ _). compute_done.
Defined.

Lemma phraseFor_entry (code phrase : string) :
  (code, phrase) ∈ EMERGENCY_PHRASE_entries ->
  phraseFor code = Some phrase /\ phrase <> "".
Proof.
  intros Hin.
  pose proof EMERGENCY_PHRASE_truthy as Htruthy.
  rewrite Forall_forall in Htruthy. specialize (Htruthy _ Hin).
  change (truthy (Some phrase) = true) in Htruthy.
  apply EMERGENCY_PHRASE_lookup_Some in Hin.
  unfold phraseFor, orElse. rewrite Hin, Htruthy. split; [reflexivity|].
  intros ->. discriminate Htruthy.
Qed.

Lemma phraseFor_absent (code : string) :
  EMERGENCY_PHRASE !! code = None -> phraseFor code = phraseFor "en".
Proof. intros Hnone. unfold phraseFor at 1. rewrite Hnone. reflexivity. Qed.

Lemma phraseFor_defined (code : string) :
  exists phrase, phraseFor code = Some phrase /\ phrase <> "".
Proof.
  destruct (EMERGENCY_PHRASE !! code) as [phrase|] eqn:Hlook.
  - exists phrase. apply phraseFor_entry, EMERGENCY_PHRASE_lookup_Some, Hlook.
  - exists "THIS IS A TEST EMERGENCY". rewrite (phraseFor_absent _ Hlook).
    split; [reflexivity | discriminate].
Qed.

(** C5: the phrase lookup never fails: it always yields a non-empty
    string, which is the table entry of the code when the table has one
    and the value of [phraseFor "en"] otherwise. *)
Theorem phraseFor_fallback (code : string) :
  (forall phrase, (code, phrase) ∈ EMERGENCY_PHRASE_entries ->
     phraseFor code = Some phrase)
  /\ (code ∉ EMERGENCY_PHRASE_entries.*1 ->
     phraseFor code = phraseFor "en")
  /\ (exists phrase, phraseFor code = Some phrase /\ phrase <> "")
  /\ phraseFor "en" = Some "THIS IS A TEST EMERGENCY".
Proof.
  split; [|split; [|split]].
  - intros phrase Hin. apply phraseFor_entry, Hin.
  - intros Hnot. apply phraseFor_absent, EMERGENCY_PHRASE_lookup_None, Hnot.
  - apply phraseFor_defined.
  - reflexivity.
Qed.

Lemma phraseFor_fallback_witness :
  phraseFor "ko" = Some "이것은 시험 비상 안내입니다"
  /\ phraseFor "yue" = phraseFor "en".
Proof.
  split.
  - refine (proj1 (phraseFor_fallback "ko") _ _). compute_done.
  - refine (proj1 (proj2 (phraseFor_fallback "yue")) _). compute_done.
Defined.

(** ** Voice-list poll *)

Lemma queries_app (tr1 tr2 : Trace) :
  queries (tr1 ++ tr2) = queries tr1 + queries tr2.
Proof. unfold queries. rewrite List.filter_app, length_app. reflexivity. Qed.

Lemma delay_app (tr1 tr2 : Trace) : delay (tr1 ++ tr2) = delay tr1 + delay tr2.
Proof.
  induction tr1 as [|e tr1 IH]; simpl; [reflexivity|].
  destruct e; simpl; rewrite IH; lia.
Qed.

Lemma spoken_app (tr1 tr2 : Trace) :
  spoken (tr1 ++ tr2) = spoken tr1 ++ spoken tr2.
Proof.
  induction tr1 as [|e tr1 IH]; simpl; [reflexivity|].
  destruct e; simpl; rewrite IH; reflexivity.
Qed.

Lemma pollRounds_measures (n : nat) :
  queries (pollRounds n) = n
  /\ delay (pollRounds n) = 200 * n
  /\ spoken (pollRounds n) = [].
Proof.
  induction n as [|n (Hq & Hd & Hs)]; [repeat split|].
  unfold queries in *. simpl. rewrite Hq, Hd, Hs. repeat split; lia.
Qed.

(** The poll performs [n] empty-handed rounds, each followed by a 200 ms
    timer, and a last query; [n] is at most [11 - tries], every round saw
    an empty list, and a loop that stops before its bound stops on a
    non-empty list. *)
Lemma waitVoices_trace (synth : SpeechSynthesis) (tries : nat) (tr : Trace) :
  exists n,
    n <= 11 - tries
    /\ waitVoices synth tries tr
       = (Fulfilled tt, tr ++ pollRounds n ++ [EvGetVoices])
    /\ (forall i, i < n -> voicesAt synth (queries tr + i) = [])
    /\ (n < 11 - tries -> voicesAt synth (queries tr + n) <> []).
Proof.
  remember (11 - tries) as budget eqn:Hbudget.
  revert tries tr Hbudget.
  induction budget as [|budget IH]; intros tries tr Hbudget;
    rewrite waitVoices_equation_1; unfold bind, getVoices;
    destruct (nonEmpty (voicesAt synth (queries tr))) eqn:Hvoices;
    destruct (gt_dec tries 10) as [Hgt|Hle]; try lia.
  1-3: exists 0; rewrite Nat.add_0_r;
    (split; [lia|]); (split; [reflexivity|]);
    (split; [intros; lia|]); intros Hlt Hnil; try lia;
    rewrite Hnil in Hvoices; discriminate.
  destruct (IH (S tries) ((tr ++ [EvGetVoices]) ++ [EvSetTimeout 200]))
    as (m & Hm & Hrun & Hempty & Hstop); [lia|].
  exists (S m). split; [lia|]. split; [|split].
  - unfold setTimeout, emit. rewrite Hrun, <- !app_assoc. reflexivity.
  - intros i Hi. destruct i as [|i].
    + rewrite Nat.add_0_r.
      destruct (voicesAt synth (queries tr)); [reflexivity | discriminate].
    + specialize (Hempty i ltac:(lia)).
      rewrite !queries_app in Hempty.
      replace (queries tr + S i)
        with (queries tr + queries [EvGetVoices]
              + queries [EvSetTimeout 200] + i)
        by (change (queries [EvGetVoices]) with 1;
            change (queries [EvSetTimeout 200]) with 0; lia).
      exact Hempty.
  - intros Hlt. specialize (Hstop ltac:(lia)).
    rewrite !queries_app in Hstop.
    replace (queries tr + S m)
      with (queries tr + queries [EvGetVoices]
            + queries [EvSetTimeout 200] + m)
      by (change (queries [EvGetVoices]) with 1;
          change (queries [EvSetTimeout 200]) with 0; lia).
    exact Hstop.
Qed.

(** The poll of a click always resolves, after at most twelve queries and
    at most eleven 200 ms timers (2200 ms), and it stops at the first
    query that finds a non-empty list. *)
Lemma waitVoices_bounded (synth : SpeechSynthesis) :
  exists tr,
    waitVoices synth 0 [] = (Fulfilled tt, tr)
    /\ queries tr <= 12
    /\ delay tr + 200 = 200 * queries tr
    /\ (forall i, S i < queries tr -> voicesAt synth i = [])
    /\ (queries tr < 12 -> voicesAt synth (queries tr - 1) <> []).
Proof.
  destruct (waitVoices_trace synth 0 []) as (n & Hle & Hrun & Hempty & Hstop).
  destruct (pollRounds_measures n) as (Hq & Hd & _).
  exists (pollRounds n ++ [EvGetVoices]). simpl in Hrun.
  rewrite queries_app, delay_app, Hq, Hd.
  change (queries [EvGetVoices]) with 1. change (delay [EvGetVoices]) with 0.
  split; [exact Hrun|]. split; [lia|]. split; [lia|]. split.
  - intros i Hi. apply (Hempty i). lia.
  - intros Hlt. replace (n + 1 - 1) with n by lia. apply Hstop. lia.
Qed.

(** C3 (the code against the claim): on a device whose voice list stays
    empty the poll resolves after 12 queries of the voice list and 11
    timers of 200 ms, that is 2200 ms, which is also the delay of the whole
    click; and no device makes the poll query more often.  The claimed
    bound of 10 queries is exceeded. *)
Theorem waitVoices_silent_device :
  fst (waitVoices silentSynth 0 []) = Fulfilled tt
  /\ queries (snd (waitVoices silentSynth 0 [])) = 12
  /\ delay (snd (waitVoices silentSynth 0 [])) = 2200
  /\ delay (snd (run (mkEnv (Some silentSynth) (fetchAlways "us"))
                   "30.2672" "-97.7431")) = 2200
  /\ (forall synth, queries (snd (waitVoices synth 0 [])) <= 12).
Proof.
  split; [vm_compute; reflexivity|].
  split; [vm_compute; reflexivity|].
  split; [vm_compute; reflexivity|].
  split; [vm_compute; reflexivity|].
  intros synth. destruct (waitVoices_bounded synth) as (tr & -> & Hq & _).
  exact Hq.
Qed.

(** ** Location-to-Country Resolver *)

Lemma countryOf_cases (data : option GeoData) :
  (countryOf data = ""
   \/ exists code, countryField data = Some code
                   /\ countryOf data = toUpperCase code)
  /\ noLowercase (countryOf data) = true.
Proof.
  split; [|apply toUpperCase_noLowercase].
  unfold countryOf, orElse.
  destruct (countryField data) as [code|]; [|left; reflexivity].
  simpl. destruct (String.eqb code ""); simpl.
  - left. reflexivity.
  - right. exists code. split; reflexivity.
Qed.

Lemma countryOf_field (data : option GeoData) (code : string) :
  countryField data = Some code -> countryOf data = toUpperCase code.
Proof.
  intros Hfield. unfold countryOf, orElse, truthy. rewrite Hfield.
  destruct (String.eqb_spec code "") as [-> | _]; reflexivity.
Qed.

Lemma countryOf_missing (data : option GeoData) :
  countryField data = None -> countryOf data = "".
Proof. intros Hfield. unfold countryOf. rewrite Hfield. reflexivity. Qed.

Lemma reverseCountryCode_fetchAlways
  (synth : option SpeechSynthesis) (code lat lon : string) (tr : Trace) :
  reverseCountryCode (mkEnv synth (fetchAlways code)) lat lon tr
  = (Fulfilled (toUpperCase code), tr ++ [EvFetch (reverseUrl lat lon)]).
Proof.
  unfold reverseCountryCode, bind, doFetch, fetchAlways, ret. cbn [fetch].
  rewrite (countryOf_field (geoData code) code eq_refl). reflexivity.
Qed.

(** C10 (as amended): when the request succeeds and the body parses, the
    country resolver fulfils with the empty string if [country_code] is
    missing or falsy, and with the field converted to uppercase if it is a
    string; for an ASCII code the result holds no lowercase letter, so the
    lowercase spelling of every key of the country table (such as "us") is
    resolved to the key itself.  A [country_code] that is truthy and not a
    string makes the resolver reject with a type error, like a failed
    request and an unparsable answer reject it with their own errors. *)
Theorem reverseCountryCode_uppercases
  (env : Env) (lat lon : string) (tr : Trace) :
  match fetch env (reverseUrl lat lon) with
  | HttpResponse (JsonData data) =>
      (countryField data = None ->
       reverseCountryCode env lat lon tr
       = (Fulfilled "", tr ++ [EvFetch (reverseUrl lat lon)]))
      /\ (forall code,
            countryField data = Some code ->
            isAscii code = true ->
            reverseCountryCode env lat lon tr
            = (Fulfilled (toUpperCase code),
               tr ++ [EvFetch (reverseUrl lat lon)])
            /\ noLowercase (toUpperCase code) = true)
  | HttpResponse (JsonNonStringCode _) =>
      fst (reverseCountryCode env lat lon tr) = Rejected TypeError
  | HttpResponse JsonSyntaxError =>
      fst (reverseCountryCode env lat lon tr) = Rejected JsonFailed
  | NetworkError =>
      fst (reverseCountryCode env lat lon tr) = Rejected FetchFailed
  end
  /\ Forall
       (fun kv =>
          noLowercase kv.1 = true
          /\ isAscii kv.1 = true
          /\ fst (reverseCountryCode
                    (mkEnv (speechSynthesis env)
                       (fetchAlways (toLowerCase kv.1))) lat lon tr)
             = Fulfilled kv.1)
       COUNTRY_LANGS_entries
  /\ fst (reverseCountryCode
            (mkEnv (speechSynthesis env) (fetchAlways "us")) lat lon tr)
     = Fulfilled "US".
Proof.
  split; [|split].
  - unfold reverseCountryCode, bind, doFetch, ret.
    destruct (fetch env (reverseUrl lat lon)) as [|[|data|v]];
      try reflexivity.
    split.
    + intros Hfield. rewrite (countryOf_missing _ Hfield). reflexivity.
    + intros code Hfield _. rewrite (countryOf_field _ _ Hfield).
      split; [reflexivity | apply toUpperCase_noLowercase].
  - assert (Hkeys : Forall
      (fun kv => noLowercase kv.1 = true /\ isAscii kv.1 = true
                 /\ toUpperCase (toLowerCase kv.1) = kv.1)
      COUNTRY_LANGS_entries) by (repeat constructor).
    eapply Forall_impl; [exact Hkeys|].
    intros kv (Hupper & Hascii & Hround).
    split; [exact Hupper|]. split; [exact Hascii|].
    rewrite reverseCountryCode_fetchAlways. cbn [fst]. rewrite Hround.
    reflexivity.
  - rewrite reverseCountryCode_fetchAlways. reflexivity.
Qed.

Lemma reverseCountryCode_uppercases_witness :
  reverseCountryCode (mkEnv None (fetchAlways "fr")) "48.8566" "2.3522" []
  = (Fulfilled "FR", [EvFetch (reverseUrl "48.8566" "2.3522")])
  /\ noLowercase "FR" = true.
Proof.
  refine (proj2 (proj1 (reverseCountryCode_uppercases
                          (mkEnv None (fetchAlways "fr"))
                          "48.8566" "2.3522" [])) "fr" _ _);
    reflexivity.
Defined.

(** C10 (as stated) fails: on an answer whose [country_code] is the JSON
    value [true] the resolver does not return the empty string or an
    uppercased field: the call of [toUpperCase] throws and the promise
    rejects. *)
Lemma reverseCountryCode_type_error :
  fst (reverseCountryCode
         (mkEnv None (fun _ => HttpResponse (JsonNonStringCode JsTrue)))
         "48.8566" "2.3522" [])
  = Rejected TypeError
  /\ forall cc,
       fst (reverseCountryCode
              (mkEnv None (fun _ => HttpResponse (JsonNonStringCode JsTrue)))
              "48.8566" "2.3522" [])
       <> Fulfilled cc.
Proof. split; [reflexivity | discriminate]. Qed.

(** ** Emergency Announcement Orchestrator *)

(** C8: without a speech-synthesis device the handler shows the alert and
    returns; the trace of the click holds that alert and nothing else: no
    voice query, no timer, no request, no utterance. *)
Theorem speakTestEmergencyAt_without_synth
  (f : string -> FetchResult) (lat lon : string) :
  run (mkEnv None f) lat lon = (Fulfilled tt, [EvAlert "Speech Synthesis not supported in this browser."])
  /\ queries (snd (run (mkEnv None f) lat lon)) = 0
  /\ delay (snd (run (mkEnv None f) lat lon)) = 0
  /\ spoken (snd (run (mkEnv None f) lat lon)) = []
  /\ Forall (fun e => forall url, e <> EvFetch url)
       (snd (run (mkEnv None f) lat lon)).
Proof.
  repeat split. constructor; [discriminate | constructor].
Qed.

Lemma bind_Fulfilled {A B} (m : M A) (k : A -> M B) (tr tr' : Trace) (a : A) :
  m tr = (Fulfilled a, tr') -> bind m k tr = k a tr'.
Proof. intros H. unfold bind. rewrite H. reflexivity. Qed.

Lemma bind_Rejected {A B} (m : M A) (k : A -> M B) (tr tr' : Trace)
  (r : Rejection) :
  m tr = (Rejected r, tr') -> bind m k tr = (Rejected r, tr').
Proof. intros H. unfold bind. rewrite H. reflexivity. Qed.

Lemma forEach_speak (mk : string -> Utterance) (langs : list string)
  (tr : Trace) :
  forEach langs (fun code => speak (mk code)) tr
  = (Fulfilled tt, tr ++ map (fun code => EvSpeak (mk code)) langs).
Proof.
  revert tr. induction langs as [|code langs IH]; intros tr; simpl.
  - unfold ret. rewrite app_nil_r. reflexivity.
  - unfold bind, speak, emit. rewrite IH, <- app_assoc. reflexivity.
Qed.

Lemma spoken_speak (mk : string -> Utterance) (langs : list string) :
  spoken (map (fun code => EvSpeak (mk code)) langs) = map mk langs.
Proof. induction langs as [|c l IH]; simpl; [|rewrite IH]; reflexivity. Qed.

Lemma queries_speak (mk : string -> Utterance) (langs : list string) :
  queries (map (fun code => EvSpeak (mk code)) langs) = 0.
Proof. induction langs as [|c l IH]; [reflexivity | exact IH]. Qed.

Lemma queries_pollRounds (n : nat) : queries (pollRounds n) = n.
Proof. apply pollRounds_measures. Qed.

Lemma spoken_pollRounds (n : nat) : spoken (pollRounds n) = [].
Proof. apply pollRounds_measures. Qed.

Create Rewrite HintDb trace.
#[local] Hint Rewrite queries_app spoken_app queries_speak spoken_speak
  queries_pollRounds spoken_pollRounds : trace.

Lemma utteranceFor_fields (voices : list Voice) (code : string) :
  Some (text (utteranceFor voices code)) = phraseFor code
  /\ voice (utteranceFor voices code) = pickVoiceFor code voices
  /\ rate (utteranceFor voices code) = 0.95%float
  /\ pitch (utteranceFor voices code) = 1.0%float.
Proof.
  destruct (phraseFor_defined code) as (phrase & Hphrase & _).
  unfold utteranceFor. cbn [text voice rate pitch]. rewrite Hphrase.
  repeat split.
Qed.

(** A click on a page that has a synthesis device [synth], at a coordinate
    for which the geocoder answers with the parsed body [data]. *)
Section AnsweredClick.

Variable synth : SpeechSynthesis.
Variable f : string -> FetchResult.
Variables lat lon : string.
Variable data : option GeoData.
Hypothesis Hfetch : f (reverseUrl lat lon) = HttpResponse (JsonData data).

Let env : Env := mkEnv (Some synth) f.
Let langs : list string := take 5 (languagesFor (countryOf data)).

Lemma reverseCountryCode_answered (tr : Trace) :
  reverseCountryCode env lat lon tr
  = (Fulfilled (countryOf data), tr ++ [EvFetch (reverseUrl lat lon)]).
Proof.
  unfold reverseCountryCode, bind, doFetch. cbn [fetch env].
  rewrite Hfetch. reflexivity.
Qed.

(** The whole trace of the click: the poll, the query that reads the
    voices, the request, and one [speak] per language of the truncated
    list, in list order. *)
Lemma speakTestEmergencyAt_trace :
  exists n,
    n <= 11
    /\ run env lat lon
       = (Fulfilled tt,
          (pollRounds n ++ [EvGetVoices])
          ++ [EvGetVoices; EvFetch (reverseUrl lat lon)]
          ++ map (fun code => EvSpeak (utteranceFor (voicesAt synth (S n)) code))
               langs).
Proof.
  destruct (waitVoices_trace synth 0 []) as (n & Hle & Hrun & _).
  exists n. split; [lia|].
  unfold run, speakTestEmergencyAt. cbn [speechSynthesis env].
  rewrite (bind_Fulfilled _ _ _ _ _ Hrun). cbn [app].
  rewrite (bind_Fulfilled (getVoices synth) _ _ _ _ eq_refl).
  rewrite (bind_Fulfilled _ _ _ _ _ (reverseCountryCode_answered _)).
  rewrite forEach_speak. autorewrite with trace.
  change (queries [EvGetVoices]) with 1.
  replace (n + 1) with (S n) by lia.
  rewrite <- !app_assoc. reflexivity.
Qed.

Lemma speakTestEmergencyAt_spoken :
  exists k tr,
    run env lat lon = (Fulfilled tt, tr)
    /\ queries tr = S k
    /\ spoken tr = map (utteranceFor (voicesAt synth k)) langs.
Proof.
  destruct speakTestEmergencyAt_trace as (n & _ & Hrun).
  exists (S n). eexists. split; [exact Hrun|].
  autorewrite with trace.
  change (queries [EvGetVoices]) with 1.
  change (queries [EvGetVoices; EvFetch (reverseUrl lat lon)]) with 1.
  split; [lia | reflexivity].
Qed.

(** C4: a click on a page with a synthesis device whose request is
    answered enqueues one utterance per language of the list truncated
    to 5 entries, in list order; each has the catalog phrase of its
    language as text, the resolver's result on the voices read after the
    poll as voice (none when absent), rate 0.95 and pitch 1.0.  For
    country code "US" the languages are en, es, zh, vi, ar and the five
    texts are their entries of the phrase table. *)
Theorem speakTestEmergencyAt_utterances :
  exists k tr,
    run (mkEnv (Some synth) f) lat lon = (Fulfilled tt, tr)
    /\ queries tr = S k
    /\ length (spoken tr) <= 5
    /\ Forall2
         (fun code u =>
            Some (text u) = phraseFor code
            /\ voice u = pickVoiceFor code (voicesAt synth k)
            /\ rate u = 0.95%float
            /\ pitch u = 1.0%float)
         (take 5 (languagesFor (countryOf data))) (spoken tr)
    /\ (countryOf data = "US" ->
        take 5 (languagesFor (countryOf data))
        = ["en"; "es"; "zh"; "vi"; "ar"]
        /\ Forall2 (fun code u => EMERGENCY_PHRASE !! code = Some (text u))
             ["en"; "es"; "zh"; "vi"; "ar"] (spoken tr)).
Proof.
  destruct speakTestEmergencyAt_spoken as (k & tr & Hrun & Hq & Hs).
  exists k, tr. rewrite Hs. subst langs.
  split; [exact Hrun|]. split; [exact Hq|]. split; [|split].
  - rewrite length_map, length_take. lia.
  - clear Hs.
    induction (take 5 (languagesFor (countryOf data))) as [|code l IH];
      simpl; constructor; [apply utteranceFor_fields | exact IH].
  - intros ->. split; [reflexivity|]. repeat constructor.
Qed.

(** C9 (as amended): a click that resolves to country code "FR" enqueues
    the French phrase first; its text is the "fr" entry of the phrase
    table, "Ceci est une alerte d’urgence de test", whose apostrophe is
    the typographic one (U+2019), not the ASCII apostrophe. *)
Theorem speakTestEmergencyAt_FR_first :
  countryOf data = "FR" ->
  exists u rest,
    spoken (snd (run (mkEnv (Some synth) f) lat lon)) = u :: rest
    /\ EMERGENCY_PHRASE !! "fr" = Some (text u)
    /\ text u = "Ceci est une alerte d’urgence de test".
Proof.
  intros HFR.
  destruct speakTestEmergencyAt_spoken as (k & tr & Hrun & _ & Hs).
  subst langs env. rewrite Hrun, HFR in *. cbn [snd]. rewrite Hs.
  eexists. eexists. split; [reflexivity|]. split; reflexivity.
Qed.

End AnsweredClick.

(** A request that fails, or whose answer does not parse, rejects the
    click after the poll; nothing is enqueued. *)
Lemma speakTestEmergencyAt_request_fails
  (synth : SpeechSynthesis) (f : string -> FetchResult) (lat lon : string) :
  f (reverseUrl lat lon) = NetworkError
  \/ f (reverseUrl lat lon) = HttpResponse JsonSyntaxError ->
  exists r tr,
    run (mkEnv (Some synth) f) lat lon = (Rejected r, tr)
    /\ spoken tr = [].
Proof.
  intros Hfail.
  destruct (waitVoices_trace synth 0 []) as (n & _ & Hrun & _).
  assert (Hcc : forall tr, exists r,
    reverseCountryCode (mkEnv (Some synth) f) lat lon tr
    = (Rejected r, tr ++ [EvFetch (reverseUrl lat lon)])).
  { intros tr. unfold reverseCountryCode, bind, doFetch. cbn [fetch].
    destruct Hfail as [-> | ->]; eexists; reflexivity. }
  unfold run, speakTestEmergencyAt. cbn [speechSynthesis].
  rewrite (bind_Fulfilled _ _ _ _ _ Hrun). cbn [app].
  rewrite (bind_Fulfilled (getVoices synth) _ _ _ _ eq_refl).
  destruct (Hcc ((pollRounds n ++ [EvGetVoices]) ++ [EvGetVoices]))
    as (r & Hr).
  rewrite (bind_Rejected _ _ _ _ _ Hr).
  exists r. eexists. split; [reflexivity|].
  autorewrite with trace. reflexivity.
Qed.

Lemma speakTestEmergencyAt_utterances_witness :
  exists k tr,
    run (mkEnv (Some silentSynth) (fetchAlways "us")) "30.2672" "-97.7431"
    = (Fulfilled tt, tr)
    /\ queries tr = S k
    /\ length (spoken tr) <= 5
    /\ Forall2
         (fun code u =>
            Some (text u) = phraseFor code
            /\ voice u = pickVoiceFor code (voicesAt silentSynth k)
            /\ rate u = 0.95%float
            /\ pitch u = 1.0%float)
         ["en"; "es"; "zh"; "vi"; "ar"] (spoken tr)
    /\ Forall2 (fun code u => EMERGENCY_PHRASE !! code = Some (text u))
         ["en"; "es"; "zh"; "vi"; "ar"] (spoken tr).
Proof.
  destruct (speakTestEmergencyAt_utterances silentSynth (fetchAlways "us")
              "30.2672" "-97.7431" (geoData "us") eq_refl)
    as (k & tr & Hrun & Hq & Hlen & Hfields & HUS).
  destruct (HUS eq_refl) as (_ & Htexts).
  exists k, tr.
  split; [exact Hrun|]. split; [exact Hq|]. split; [exact Hlen|].
  split; [exact Hfields | exact Htexts].
Defined.

Lemma speakTestEmergencyAt_FR_first_witness :
  exists u rest,
    spoken (snd (run (mkEnv (Some silentSynth) (fetchAlways "fr"))
                   "48.8566" "2.3522")) = u :: rest
    /\ EMERGENCY_PHRASE !! "fr" = Some (text u)
    /\ text u = "Ceci est une alerte d’urgence de test".
Proof.
  apply (speakTestEmergencyAt_FR_first silentSynth (fetchAlways "fr")
           "48.8566" "2.3522" (geoData "fr")); reflexivity.
Defined.

(** C9 (as stated) fails: the text of the first utterance enqueued for
    "FR" is not the string written with the ASCII apostrophe; the two
    differ at the apostrophe, three bytes against one. *)
Lemma french_phrase_not_ascii_apostrophe :
  exists u rest,
    spoken (snd (run (mkEnv (Some silentSynth) (fetchAlways "fr"))
                   "48.8566" "2.3522")) = u :: rest
    /\ text u <> "Ceci est une alerte d'urgence de test"
    /\ String.length (text u) = 39
    /\ String.length "Ceci est une alerte d'urgence de test" = 37.
Proof.
  eexists. eexists. split; [vm_compute; reflexivity|].
  split; [discriminate|]. split; reflexivity.
Qed.

(** * Further properties of the code *)

(** ** Voice Resolver *)

Lemma startsWith_nil (s : string) : startsWith s "" = true.
Proof. destruct s; reflexivity. Qed.

Lemma startsWith_nonEmpty (s p : string) :
  p <> "" -> startsWith s p = true -> s <> "".
Proof. intros Hp Hs ->. destruct p; [congruence | discriminate Hs]. Qed.

Lemma tagMatches_tagged (langCode : string) (v : Voice) :
  tagMatches langCode v = true -> exists tag, lang v = Some tag /\ tag <> "".
Proof.
  unfold tagMatches. destruct (lang v) as [tag|]; [|discriminate].
  intros H. apply andb_prop in H as [H _]. exists tag. split; [reflexivity|].
  intros ->. discriminate H.
Qed.

Lemma tagStartsWith_tagged (p : string) (v : Voice) :
  p <> "" -> tagStartsWith p v = true ->
  exists tag, lang v = Some tag /\ tag <> "".
Proof.
  unfold tagStartsWith. destruct (lang v) as [tag|]; [|discriminate].
  intros Hp H. exists tag. split; [reflexivity|].
  exact (startsWith_nonEmpty _ _ Hp H).
Qed.

(** X1: a voice returned by the resolver is always one of the listed
    voices, it carries a non-empty tag, and it was found by step 1 (its tag
    starts with the code, case-insensitively) or, when step 1 finds
    nothing, by the one fallback search of the code ("zh" for "yue", "fil"
    for "tl", "en" otherwise). *)
Theorem pickVoiceFor_returns_listed_voice
  (langCode : string) (voices : list Voice) (v : Voice) :
  pickVoiceFor langCode voices = Some v ->
  In v voices
  /\ (exists tag, lang v = Some tag /\ tag <> "")
  /\ (tagMatches langCode v = true
      \/ (Forall (fun w => tagMatches langCode w = false) voices
          /\ tagStartsWith
               (if String.eqb langCode "yue" then "zh"
                else if String.eqb langCode "tl" then "fil" else "en") v
             = true)).
Proof.
  unfold pickVoiceFor.
  destruct (List.filter (tagMatches langCode) voices) as [|v0 cand] eqn:Hcand.
  - intros Hfind. apply filter_nil_Forall in Hcand.
    assert (Hsome : exists p, p <> "" /\ List.find (tagStartsWith p) voices = Some v
              /\ p = (if String.eqb langCode "yue" then "zh"
                      else if String.eqb langCode "tl" then "fil" else "en")).
    { destruct (String.eqb langCode "yue");
        [|destruct (String.eqb langCode "tl")];
        eexists; (split; [|split; [exact Hfind | reflexivity]]); discriminate. }
    destruct Hsome as (p & Hp & Hv & ->).
    apply List.find_some in Hv as [Hin Htag].
    split; [exact Hin|]. split; [exact (tagStartsWith_tagged _ _ Hp Htag)|].
    right. split; assumption.
  - intros [= <-].
    assert (Hin : In v0 (List.filter (tagMatches langCode) voices))
      by (rewrite Hcand; left; reflexivity).
    apply List.filter_In in Hin as [Hin Hmatch].
    split; [exact Hin|]. split; [exact (tagMatches_tagged _ _ Hmatch)|].
    left. exact Hmatch.
Qed.

Lemma pickVoiceFor_returns_listed_voice_witness :
  In voice_zhCN [voice_enUS; voice_zhCN]
  /\ (exists tag, lang voice_zhCN = Some tag /\ tag <> "")
  /\ (tagMatches "yue" voice_zhCN = true
      \/ (Forall (fun w => tagMatches "yue" w = false) [voice_enUS; voice_zhCN]
          /\ tagStartsWith "zh" voice_zhCN = true)).
Proof.
  exact (pickVoiceFor_returns_listed_voice "yue" [voice_enUS; voice_zhCN]
           voice_zhCN eq_refl).
Defined.

(** X2: a voice of the language itself wins over every fallback: the first
    voice whose tag starts with the code (whatever the case of either) is
    returned, also for "yue" and "tl", and also when voices tagged "zh",
    "fil" or "en" come earlier in the list. *)
Theorem pickVoiceFor_own_language_first
  (langCode : string) (pre post : list Voice) (v : Voice) :
  tagMatches langCode v = true ->
  Forall (fun w => tagMatches langCode w = false) pre ->
  pickVoiceFor langCode (pre ++ v :: post) = Some v.
Proof.
  intros Hv Hpre. apply filter_nil_Forall in Hpre.
  unfold pickVoiceFor. rewrite List.filter_app, Hpre. simpl.
  rewrite Hv. reflexivity.
Qed.

Lemma pickVoiceFor_own_language_first_witness :
  pickVoiceFor "YUE" [voice_zhCN; voice_enUS; voice_yueHK; voice_zhTW]
  = Some voice_yueHK.
Proof.
  apply (pickVoiceFor_own_language_first "YUE" [voice_zhCN; voice_enUS]
           [voice_zhTW] voice_yueHK).
  - reflexivity.
  - repeat constructor.
Defined.

(** X3: for the empty language code every tagged voice matches in step 1,
    so the resolver returns the first voice that has a non-empty tag,
    whatever its language, and absent only when no voice is tagged. *)
Theorem pickVoiceFor_empty_code (voices : list Voice) :
  pickVoiceFor "" voices = List.find (fun v => truthy (lang v)) voices.
Proof.
  assert (Hmatch : forall v, tagMatches "" v = truthy (lang v)).
  { intros v. unfold tagMatches, truthy. destruct (lang v) as [tag|];
      [|reflexivity].
    change (toLowerCase "") with "". rewrite startsWith_nil.
    apply andb_true_r. }
  unfold pickVoiceFor.
  rewrite (List.filter_ext _ _ Hmatch).
  rewrite (filter_head_find (fun v => truthy (lang v))).
  destruct (List.filter (fun v => truthy (lang v)) voices) as [|v cand]
    eqn:Hcand; [|reflexivity].
  simpl. apply filter_nil_Forall in Hcand.
  destruct (List.find (tagStartsWith "en") voices) as [v|] eqn:Hfind;
    [|reflexivity].
  apply List.find_some in Hfind as [Hin Htag].
  rewrite List.Forall_forall in Hcand. specialize (Hcand v Hin).
  destruct (tagStartsWith_tagged "en" v ltac:(discriminate) Htag)
    as (tag & Hlang & Hne).
  rewrite Hlang in Hcand. simpl in Hcand.
  apply negb_false_iff, String.eqb_eq in Hcand. contradiction.
Qed.

(** ** Voice-list poll *)

(** X4: the poll stops at the first query that finds voices: when the
    device first answers a non-empty list at its query number [i] (counted
    from 0, with [i <= 11]), the poll resolves after exactly [i + 1]
    queries and [i] timers of 200 ms; a device that has voices at once is
    queried once and never waited for. *)
Theorem waitVoices_stops_at_first_voices (synth : SpeechSynthesis) (i : nat) :
  i <= 11 ->
  (forall j, j < i -> voicesAt synth j = []) ->
  voicesAt synth i <> [] ->
  waitVoices synth 0 [] = (Fulfilled tt, pollRounds i ++ [EvGetVoices])
  /\ queries (pollRounds i ++ [EvGetVoices]) = S i
  /\ delay (pollRounds i ++ [EvGetVoices]) = 200 * i.
Proof.
  intros Hi Hempty Hvoices.
  destruct (waitVoices_trace synth 0 []) as (n & Hn & Hrun & Hnone & Hstop).
  change (queries []) with 0 in Hnone, Hstop. simpl in Hrun, Hnone, Hstop.
  assert (n = i) as ->.
  { destruct (Nat.lt_trichotomy n i) as [Hlt | [Heq | Hgt]].
    - exfalso. apply Hstop; [lia | apply Hempty, Hlt].
    - exact Heq.
    - exfalso. apply Hvoices, Hnone, Hgt. }
  destruct (pollRounds_measures i) as (Hq & Hd & _).
  split; [exact Hrun|].
  rewrite queries_app, delay_app, Hq, Hd.
  change (queries [EvGetVoices]) with 1. change (delay [EvGetVoices]) with 0.
  split; lia.
Qed.

Lemma waitVoices_stops_at_first_voices_witness :
  waitVoices (lateSynth 3) 0 [] = (Fulfilled tt, pollRounds 3 ++ [EvGetVoices])
  /\ queries (pollRounds 3 ++ [EvGetVoices]) = 4
  /\ delay (pollRounds 3 ++ [EvGetVoices]) = 600.
Proof.
  apply (waitVoices_stops_at_first_voices (lateSynth 3) 3).
  - lia.
  - intros j Hj. simpl. destruct (Nat.ltb_spec j 3); [reflexivity | lia].
  - discriminate.
Defined.

(** ** Emergency Announcement Orchestrator *)

Lemma languagesFor_length (cc : string) : length (languagesFor cc) = 5.
Proof.
  unfold languagesFor.
  destruct (COUNTRY_LANGS !! cc) as [langs|] eqn:Hlook; [|reflexivity].
  apply COUNTRY_LANGS_lookup_Some in Hlook.
  pose proof COUNTRY_LANGS_shape as Hshape.
  rewrite Forall_forall in Hshape. apply (Hshape _ Hlook).
Qed.

(** X5: every list of the country table, and the default list, has five
    languages, so the truncation to 5 entries never drops a language and
    every answered click enqueues exactly five utterances. *)
Theorem speakTestEmergencyAt_five_utterances
  (synth : SpeechSynthesis) (f : string -> FetchResult) (lat lon : string)
  (data : option GeoData) :
  f (reverseUrl lat lon) = HttpResponse (JsonData data) ->
  take 5 (languagesFor (countryOf data)) = languagesFor (countryOf data)
  /\ length (spoken (snd (run (mkEnv (Some synth) f) lat lon))) = 5.
Proof.
  intros Hfetch.
  assert (Htake : take 5 (languagesFor (countryOf data))
                  = languagesFor (countryOf data))
    by (apply take_ge; rewrite languagesFor_length; lia).
  split; [exact Htake|].
  destruct (speakTestEmergencyAt_spoken synth f lat lon data Hfetch)
    as (k & tr & Hrun & _ & Hs).
  rewrite Hrun. cbn [snd]. rewrite Hs, length_map, Htake.
  apply languagesFor_length.
Qed.

Lemma speakTestEmergencyAt_five_utterances_witness :
  take 5 (languagesFor (countryOf (geoData "zz")))
  = languagesFor (countryOf (geoData "zz"))
  /\ length (spoken (snd (run (mkEnv (Some (lateSynth 2)) (fetchAlways "zz"))
                            "0" "0"))) = 5.
Proof.
  apply (speakTestEmergencyAt_five_utterances (lateSynth 2) (fetchAlways "zz")
           "0" "0" (geoData "zz")).
  reflexivity.
Defined.

(** The trace of a click whose country resolver rejects: the poll, the
    query that reads the voices, the request. *)
Lemma speakTestEmergencyAt_rejected_trace
  (synth : SpeechSynthesis) (f : string -> FetchResult) (lat lon : string)
  (r : Rejection) :
  (f (reverseUrl lat lon) = NetworkError /\ r = FetchFailed)
  \/ (f (reverseUrl lat lon) = HttpResponse JsonSyntaxError /\ r = JsonFailed)
  \/ (exists v, f (reverseUrl lat lon) = HttpResponse (JsonNonStringCode v)
                /\ r = TypeError) ->
  exists n,
    n <= 11
    /\ run (mkEnv (Some synth) f) lat lon
       = (Rejected r,
          (pollRounds n ++ [EvGetVoices])
          ++ [EvGetVoices; EvFetch (reverseUrl lat lon)]).
Proof.
  intros Hfail.
  destruct (waitVoices_trace synth 0 []) as (n & Hn & Hrun & _).
  exists n. split; [lia|].
  assert (Hcc : forall tr,
    reverseCountryCode (mkEnv (Some synth) f) lat lon tr
    = (Rejected r, tr ++ [EvFetch (reverseUrl lat lon)])).
  { intros tr. unfold reverseCountryCode, bind, doFetch. cbn [fetch].
    destruct Hfail as [[-> ->] | [[-> ->] | (v & -> & ->)]]; reflexivity. }
  unfold run, speakTestEmergencyAt. cbn [speechSynthesis].
  rewrite (bind_Fulfilled _ _ _ _ _ Hrun). cbn [app].
  rewrite (bind_Fulfilled (getVoices synth) _ _ _ _ eq_refl).
  rewrite (bind_Rejected _ _ _ _ _ (Hcc _)).
  rewrite <- !app_assoc. reflexivity.
Qed.

Lemma speakTestEmergencyAt_rejectedQuietly
  (synth : SpeechSynthesis) (f : string -> FetchResult) (lat lon : string)
  (r : Rejection) :
  (f (reverseUrl lat lon) = NetworkError /\ r = FetchFailed)
  \/ (f (reverseUrl lat lon) = HttpResponse JsonSyntaxError /\ r = JsonFailed)
  \/ (exists v, f (reverseUrl lat lon) = HttpResponse (JsonNonStringCode v)
                /\ r = TypeError) ->
  rejectedQuietly (run (mkEnv (Some synth) f) lat lon) r.
Proof.
  intros Hfail.
  destruct (speakTestEmergencyAt_rejected_trace synth f lat lon r Hfail)
    as (n & _ & Hrun).
  rewrite Hrun. unfold rejectedQuietly. cbn [fst snd].
  split; [reflexivity|]. split; [autorewrite with trace; reflexivity|].
  apply Forall_app. split; [apply Forall_app; split|].
  - clear Hrun. induction n as [|n IH]; simpl; repeat constructor;
      try discriminate. exact IH.
  - repeat constructor; discriminate.
  - repeat constructor; discriminate.
Qed.

(** X6: with a synthesis device the click fulfils exactly when the
    country request is answered with a body that parses and whose
    [country_code] is missing, falsy or a string.  A failed request
    rejects it with [FetchFailed], an unparsable answer with
    [JsonFailed], and a [country_code] that is truthy and not a string
    with [TypeError]; nothing catches these, and in all three cases
    nothing is enqueued and no alert is shown. *)
Theorem speakTestEmergencyAt_outcome
  (synth : SpeechSynthesis) (f : string -> FetchResult) (lat lon : string) :
  match f (reverseUrl lat lon) with
  | HttpResponse (JsonData _) =>
      fst (run (mkEnv (Some synth) f) lat lon) = Fulfilled tt
  | HttpResponse (JsonNonStringCode _) =>
      rejectedQuietly (run (mkEnv (Some synth) f) lat lon) TypeError
  | HttpResponse JsonSyntaxError =>
      rejectedQuietly (run (mkEnv (Some synth) f) lat lon) JsonFailed
  | NetworkError =>
      rejectedQuietly (run (mkEnv (Some synth) f) lat lon) FetchFailed
  end.
Proof.
  destruct (f (reverseUrl lat lon)) as [|[|data|v]] eqn:Hfetch.
  - apply speakTestEmergencyAt_rejectedQuietly. left. split; [exact Hfetch|].
    reflexivity.
  - apply speakTestEmergencyAt_rejectedQuietly. right. left.
    split; [exact Hfetch | reflexivity].
  - destruct (speakTestEmergencyAt_trace synth f lat lon data Hfetch)
      as (n & _ & Hrun).
    rewrite Hrun. reflexivity.
  - apply speakTestEmergencyAt_rejectedQuietly. right. right. exists v.
    split; [exact Hfetch | reflexivity].
Qed.

(** X7: with a synthesis device a click makes exactly one request, after
    all its queries of the voice list and 200 ms timers and before any
    utterance is enqueued: its trace is poll events, then the request,
    then [speak] events only. *)
Theorem speakTestEmergencyAt_effect_order
  (synth : SpeechSynthesis) (f : string -> FetchResult) (lat lon : string) :
  exists pre post,
    snd (run (mkEnv (Some synth) f) lat lon)
    = pre ++ EvFetch (reverseUrl lat lon) :: post
    /\ Forall (fun e => isPollEvent e = true) pre
    /\ Forall (fun e => isSpeak e = true) post.
Proof.
  assert (Hpoll : forall n,
    Forall (fun e => isPollEvent e = true)
      ((pollRounds n ++ [EvGetVoices]) ++ [EvGetVoices])).
  { intros n. apply Forall_app. split; [apply Forall_app; split|].
    - induction n as [|n IH]; simpl; repeat constructor. exact IH.
    - repeat constructor.
    - repeat constructor. }
  assert (Hrejected : forall r,
    (f (reverseUrl lat lon) = NetworkError /\ r = FetchFailed)
    \/ (f (reverseUrl lat lon) = HttpResponse JsonSyntaxError
        /\ r = JsonFailed)
    \/ (exists v, f (reverseUrl lat lon) = HttpResponse (JsonNonStringCode v)
                  /\ r = TypeError) ->
    exists pre post,
      snd (run (mkEnv (Some synth) f) lat lon)
      = pre ++ EvFetch (reverseUrl lat lon) :: post
      /\ Forall (fun e => isPollEvent e = true) pre
      /\ Forall (fun e => isSpeak e = true) post).
  { intros r Hfail.
    destruct (speakTestEmergencyAt_rejected_trace synth f lat lon r Hfail)
      as (n & _ & Hrun).
    exists ((pollRounds n ++ [EvGetVoices]) ++ [EvGetVoices]), [].
    rewrite Hrun. cbn [snd]. split; [|split; [apply Hpoll | constructor]].
    rewrite <- !app_assoc. reflexivity. }
  destruct (f (reverseUrl lat lon)) as [|[|data|v]] eqn:Hfetch.
  - apply (Hrejected FetchFailed). left. split; reflexivity.
  - apply (Hrejected JsonFailed). right. left. split; reflexivity.
  - destruct (speakTestEmergencyAt_trace synth f lat lon data Hfetch)
      as (n & _ & Hrun).
    exists ((pollRounds n ++ [EvGetVoices]) ++ [EvGetVoices]). eexists.
    rewrite Hrun. cbn [snd]. split; [|split; [apply Hpoll|]].
    + rewrite <- !app_assoc. reflexivity.
    + apply Forall_map, Forall_true. reflexivity.
  - apply (Hrejected TypeError). right. right. exists v. split; reflexivity.
Qed.

Lemma primary_language_translated (cc : string) :
  exists code rest phrase,
    languagesFor cc = code :: rest
    /\ EMERGENCY_PHRASE !! code = Some phrase
    /\ phraseFor code = Some phrase.
Proof.
  assert (Htable : Forall
    (fun kv => exists code rest phrase,
       kv.2 = code :: rest /\ EMERGENCY_PHRASE !! code = Some phrase)
    (("", DEFAULT_LANGS) :: COUNTRY_LANGS_entries)).
  { repeat (constructor; [do 3 eexists; split; reflexivity|]). constructor. }
  assert (Hlangs : exists code rest phrase,
    languagesFor cc = code :: rest /\ EMERGENCY_PHRASE !! code = Some phrase).
  { rewrite Forall_forall in Htable. unfold languagesFor.
    destruct (COUNTRY_LANGS !! cc) as [langs|] eqn:Hlook.
    - apply COUNTRY_LANGS_lookup_Some in Hlook.
      apply (Htable (cc, langs)). right. exact Hlook.
    - apply (Htable ("", DEFAULT_LANGS)). left. }
  destruct Hlangs as (code & rest & phrase & Hl & Hp).
  exists code, rest, phrase. split; [exact Hl|]. split; [exact Hp|].
  apply phraseFor_entry, EMERGENCY_PHRASE_lookup_Some, Hp.
Qed.

(** X8: the first utterance of every answered click is in the first
    language of the country's list, and its text is that language's own
    entry of the phrase table: no country of the table, and not the
    default list, starts with a language that lacks a translation. *)
Theorem speakTestEmergencyAt_first_in_primary_language
  (synth : SpeechSynthesis) (f : string -> FetchResult) (lat lon : string)
  (data : option GeoData) :
  f (reverseUrl lat lon) = HttpResponse (JsonData data) ->
  exists code u rest,
    head (languagesFor (countryOf data)) = Some code
    /\ spoken (snd (run (mkEnv (Some synth) f) lat lon)) = u :: rest
    /\ EMERGENCY_PHRASE !! code = Some (text u).
Proof.
  intros Hfetch.
  destruct (speakTestEmergencyAt_spoken synth f lat lon data Hfetch)
    as (k & tr & Hrun & _ & Hs).
  destruct (primary_language_translated (countryOf data))
    as (code & langs & phrase & Hl & Hlook & Hphrase).
  rewrite Hrun. cbn [snd]. rewrite Hs, Hl.
  exists code. eexists. eexists.
  split; [reflexivity|]. split; [reflexivity|].
  unfold utteranceFor. cbn [text]. rewrite Hphrase. exact Hlook.
Qed.

Lemma speakTestEmergencyAt_first_in_primary_language_witness :
  exists code u rest,
    head (languagesFor (countryOf (geoData "ph"))) = Some code
    /\ spoken (snd (run (mkEnv (Some silentSynth) (fetchAlways "ph"))
                      "14.5995" "120.9842")) = u :: rest
    /\ EMERGENCY_PHRASE !! code = Some (text u).
Proof.
  apply (speakTestEmergencyAt_first_in_primary_language silentSynth
           (fetchAlways "ph") "14.5995" "120.9842" (geoData "ph")).
  reflexivity.
Defined.

(** X9: fourteen language codes of the country table have no entry in the
    phrase table (el, yue, ca, gl, ro, uk, tt, az, ku, sd, ps, yo, ig,
    ha); the utterance of a code without an entry carries the English
    text, while its voice is still the one resolved for the code. *)
Theorem untranslated_languages_get_english_text :
  untranslated
  = ["el"; "yue"; "ca"; "gl"; "ro"; "uk"; "tt"; "az"; "ku"; "sd"; "ps";
     "yo"; "ig"; "ha"]
  /\ forall voices code,
       EMERGENCY_PHRASE !! code = None ->
       text (utteranceFor voices code) = "THIS IS A TEST EMERGENCY"
       /\ voice (utteranceFor voices code) = pickVoiceFor code voices.
Proof.
  split; [vm_compute; reflexivity|].
  intros voices code Hnone. unfold utteranceFor. cbn [text voice].
  rewrite (phraseFor_absent _ Hnone). split; reflexivity.
Qed.

Lemma untranslated_languages_get_english_text_witness :
  text (utteranceFor [voice_yueHK; voice_enUS] "yue") = "THIS IS A TEST EMERGENCY"
  /\ voice (utteranceFor [voice_yueHK; voice_enUS] "yue") = Some voice_yueHK.
Proof.
  split.
  - refine (proj1 (proj2 untranslated_languages_get_english_text
                     [voice_yueHK; voice_enUS] "yue" _)). reflexivity.
  - refine (eq_trans (proj2 (proj2 untranslated_languages_get_english_text
                     [voice_yueHK; voice_enUS] "yue" _)) _); reflexivity.
Defined.

(** ** Place and weather lookup *)

Section WeatherLookup.
Import Weather.

Lemma append_empty (s t : string) : s +:+ t = "" -> s = "".
Proof. destruct s; [reflexivity | discriminate]. Qed.

Lemma nonEmptyString_false (s : string) : nonEmptyString s = false <-> s = "".
Proof.
  unfold nonEmptyString. rewrite negb_false_iff. apply String.eqb_eq.
Qed.

Lemma nonEmptyString_true (s : string) : nonEmptyString s = true <-> s <> "".
Proof.
  unfold nonEmptyString. rewrite negb_true_iff. apply String.eqb_neq.
Qed.

Lemma str_Some (s : string) : str (Some s) = s.
Proof. reflexivity. Qed.

Lemma str_orElse_truthy (a : option string) (d : string) :
  d <> "" ->
  str (orElse a (Some d)) <> ""
  /\ (truthy a = true -> Some (str (orElse a (Some d))) = a)
  /\ (truthy a = false -> str (orElse a (Some d)) = d).
Proof.
  intros Hd. unfold orElse. destruct (truthy a) eqn:Ha.
  - destruct a as [s|]; [|discriminate Ha]. simpl in *.
    apply negb_true_iff, String.eqb_neq in Ha.
    split; [exact Ha|]. split; [reflexivity | discriminate].
  - split; [exact Hd|]. split; [discriminate | reflexivity].
Qed.

Lemma join_three_parts (c s k : string) :
  join ", " (List.filter nonEmptyString [c; s; k])
  = match nonEmptyString c, nonEmptyString s, nonEmptyString k with
    | true, true, true => c +:+ ", " +:+ s +:+ ", " +:+ k
    | true, true, false => c +:+ ", " +:+ s
    | true, false, true => c +:+ ", " +:+ k
    | true, false, false => c
    | false, true, true => s +:+ ", " +:+ k
    | false, true, false => s
    | false, false, true => k
    | false, false, false => ""
    end
  /\ (join ", " (List.filter nonEmptyString [c; s; k]) = ""
      <-> c = "" /\ s = "" /\ k = "").
Proof.
  simpl.
  destruct (nonEmptyString c) eqn:Hc, (nonEmptyString s) eqn:Hs,
           (nonEmptyString k) eqn:Hk; simpl;
    (split; [reflexivity|]);
    repeat match goal with
           | H : nonEmptyString _ = true |- _ =>
               apply nonEmptyString_true in H
           | H : nonEmptyString _ = false |- _ =>
               apply nonEmptyString_false in H
           end;
    split;
    try (intros (? & ? & ?); congruence);
    try (intros H; apply append_empty in H; congruence);
    try (intros H; congruence);
    try (intros _; repeat split; assumption).
Qed.

(** X10: the place name is made of the non-empty ones among city, state
    and country code, in that order, separated by ", ": a missing part
    leaves no empty slot and no stray separator, and the name is empty
    exactly when all three parts are. *)
Theorem reversePlace_placeName (data : option JsonObject) :
  let a := addressOf data in
  let p := placeOf data in
  placeName p
  = match nonEmptyString (cityOf a), nonEmptyString (stateOf a),
          nonEmptyString (cc p) with
    | true, true, true => cityOf a +:+ ", " +:+ stateOf a +:+ ", " +:+ cc p
    | true, true, false => cityOf a +:+ ", " +:+ stateOf a
    | true, false, true => cityOf a +:+ ", " +:+ cc p
    | true, false, false => cityOf a
    | false, true, true => stateOf a +:+ ", " +:+ cc p
    | false, true, false => stateOf a
    | false, false, true => cc p
    | false, false, false => ""
    end
  /\ (placeName p = "" <-> cityOf a = "" /\ stateOf a = "" /\ cc p = "").
Proof.
  intros a p. exact (join_three_parts (cityOf a) (stateOf a) (cc p)).
Qed.

(** X11: the city of a place is the first non-empty one among the fields
    city, town, village, hamlet and county, in that order, and its state
    the first non-empty one among state and region; a field that is
    present but empty is passed over like a missing one, and the result is
    empty when every field is. *)
Theorem cityOf_first_present (a : AddressObject) :
  cityOf a
  = default ""
      (head (List.filter nonEmptyString
               (map str [city a; town a; village a; hamlet a; county a])))
  /\ stateOf a
     = default ""
         (head (List.filter nonEmptyString (map str [state a; region a]))).
Proof.
  destruct a as [c t v h k s r ?]. unfold cityOf, stateOf. cbn [city town
    village hamlet county state region map].
  split.
  - destruct c as [[|? ?]|], t as [[|? ?]|], v as [[|? ?]|],
      h as [[|? ?]|], k as [[|? ?]|]; reflexivity.
  - destruct s as [[|? ?]|], r as [[|? ?]|]; reflexivity.
Qed.

(** X12: the place lookup of the weather panel and the country resolver
    of the announcement settle alike on the same parsed body.  When its
    [country_code] is missing, falsy or a string, both resolve, with the
    same country code: empty when the field is missing or empty, and for
    an ASCII string its uppercase form, without lowercase letter.  When
    its [country_code] is truthy and not a string, both reject with a type
    error.  On a [null] body the place is empty. *)
Theorem reversePlace_cc_agrees
  (fetch : string -> Fetched) (synth : option SpeechSynthesis)
  (geocoder : string -> FetchResult) (lat lon : string)
  (data : option JsonObject) (tr : Trace) :
  fetch (placeUrl lat lon) = JsonBody data ->
  geocoder (reverseUrl lat lon) = HttpResponse (geoResult data) ->
  match country_code (addressOf data) with
  | Some (CodeOther _) =>
      reversePlace fetch lat lon = Failed TypeFailure
      /\ fst (reverseCountryCode (mkEnv synth geocoder) lat lon tr)
         = Rejected TypeError
  | _ =>
      exists p,
        reversePlace fetch lat lon = Resolved p
        /\ fst (reverseCountryCode (mkEnv synth geocoder) lat lon tr)
           = Fulfilled (cc p)
        /\ (truthy (codeString (addressOf data)) = false -> cc p = "")
        /\ (forall code,
              codeString (addressOf data) = Some code ->
              isAscii code = true ->
              cc p = toUpperCase code /\ noLowercase (cc p) = true)
  end
  /\ (data = None -> reversePlace fetch lat lon = Resolved (mkPlace "" "")).
Proof.
  intros Hfetch Hgeo.
  assert (Hcc : forall json,
    geocoder (reverseUrl lat lon) = HttpResponse json ->
    fst (reverseCountryCode (mkEnv synth geocoder) lat lon tr)
    = match json with
      | JsonSyntaxError => Rejected JsonFailed
      | JsonData d => Fulfilled (countryOf d)
      | JsonNonStringCode _ => Rejected TypeError
      end).
  { intros json Hjson. unfold reverseCountryCode, bind, doFetch.
    cbn beta iota delta -[reverseUrl]. rewrite Hjson.
    destruct json; reflexivity. }
  rewrite (Hcc _ Hgeo). clear Hcc Hgeo.
  unfold reversePlace. rewrite Hfetch. split.
  - assert (Hstring : forall o : option string,
      (truthy o = false -> toUpperCase (str (orElse o (Some ""))) = "")
      /\ (forall code, o = Some code ->
           toUpperCase (str (orElse o (Some ""))) = toUpperCase code)).
    { intros o. split.
      - intros Hfalsy. unfold orElse. rewrite Hfalsy. reflexivity.
      - intros code ->. unfold orElse.
        destruct (truthy (Some code)) eqn:Htruthy; [reflexivity|].
        simpl in Htruthy. apply negb_false_iff, String.eqb_eq in Htruthy.
        rewrite Htruthy. reflexivity. }
    destruct data as [[[a|] cw tz]|]; cbn [addressOf address geoResult].
    2-3: exists (placeOf None); split; [reflexivity|];
         split; [reflexivity|]; split; [reflexivity | discriminate].
    destruct a as [? ? ? ? ? ? ? [[code|v]|]] eqn:Ha;
      cbn [country_code].
    + exists (placeOf (Some (mkJsonObject (Some a) cw tz))).
      subst a. split; [reflexivity|].
      destruct (Hstring (Some code)) as (Hfalsy & Hsome).
      unfold placeOf, codeString. cbn [cc addressOf address country_code].
      split; [reflexivity|]. split; [exact Hfalsy|].
      intros code' [= <-] _. split; [apply Hsome; reflexivity|].
      apply toUpperCase_noLowercase.
    + split; reflexivity.
    + exists (placeOf (Some (mkJsonObject (Some a) cw tz))).
      subst a. split; [reflexivity|].
      split; [reflexivity|]. split; [reflexivity | discriminate].
  - intros ->. reflexivity.
Qed.

Lemma reversePlace_cc_agrees_witness :
  (reversePlace (fun _ => JsonBody None) "0" "0" = Resolved (mkPlace "" ""))
  /\ (reversePlace
        (fun _ =>
           JsonBody
             (Some (mkJsonObject
                      (Some (mkAddressObject None None None None None None
                               None (Some (CodeOther JsTrue))))
                      None None))) "0" "0"
      = Failed TypeFailure).
Proof.
  split.
  - exact (proj2 (reversePlace_cc_agrees (fun _ => JsonBody None) None
                    (fun _ => HttpResponse (JsonData None)) "0" "0" None []
                    eq_refl eq_refl) eq_refl).
  - exact (proj1 (proj1 (reversePlace_cc_agrees
                    (fun _ =>
                       JsonBody
                         (Some (mkJsonObject
                                  (Some (mkAddressObject None None None None
                                           None None None
                                           (Some (CodeOther JsTrue))))
                                  None None)))
                    None
                    (fun _ => HttpResponse (JsonNonStringCode JsTrue))
                    "0" "0" _ [] eq_refl eq_refl))).
Defined.

(** X13: the weather lookup resolves exactly on a body that is an object;
    a [null] body makes it fail with a type error, since the body is read
    without [?.].  A resolved report always names a time zone: the one of
    the body when that is a non-empty string, "UTC" otherwise; and without
    [current_weather] its three readings are all missing. *)
Theorem fetchWeather_report (fetch : string -> Fetched) (lat lon : string) :
  match fetch (weatherUrl lat lon) with
  | JsonBody (Some j) =>
      exists w,
        fetchWeather fetch lat lon = Resolved w
        /\ report_timezone w <> ""
        /\ (truthy (timezone j) = true -> Some (report_timezone w) = timezone j)
        /\ (truthy (timezone j) = false -> report_timezone w = "UTC")
        /\ (current_weather j = None ->
            report_temperature w = None
            /\ report_windspeed w = None
            /\ report_weathercode w = None)
  | JsonBody None => fetchWeather fetch lat lon = Failed TypeFailure
  | JsonError => fetchWeather fetch lat lon = Failed SyntaxFailure
  | FetchError => fetchWeather fetch lat lon = Failed NetworkFailure
  end.
Proof.
  unfold fetchWeather.
  destruct (fetch (weatherUrl lat lon)) as [| |[j|]]; try reflexivity.
  exists (reportOf j). split; [reflexivity|].
  unfold reportOf. cbn [report_timezone report_temperature report_windspeed
    report_weathercode].
  destruct (str_orElse_truthy (timezone j) "UTC" ltac:(discriminate))
    as (Hne & Hsome & Hnone).
  split; [exact Hne|]. split; [exact Hsome|]. split; [exact Hnone|].
  intros ->. repeat split.
Qed.






Lemma handleWeatherClick_promise_run
  (order : Order) (fetch : string -> Fetched) (lat lon : string)
  (t0 t1 : nat) (log : list UiEvent) :
  handleWeatherClick_promise order fetch lat lon t0 t1 log
  = (Resolved tt,
     log ++ [SetWeatherBox (loadingBox t0); Fetch (placeUrl lat lon);
             Fetch (weatherUrl lat lon);
             SetWeatherBox
               match reversePlace fetch lat lon,
                     fetchWeather fetch lat lon with
               | Resolved place, Resolved w => loadedBox place w t1
               | _, _ => errorBox
               end]).
Proof.
  unfold handleWeatherClick_promise, await, tryCatch, promiseAll,
    setWeatherBox, reversePlaceCall, fetchWeatherCall.
  destruct (reversePlace fetch lat lon) as [place|e1],
           (fetchWeather fetch lat lon) as [w|e2];
    try destruct order; rewrite <- !app_assoc; reflexivity.
Qed.

Lemma reversePlace_Failed (fetch : string -> Fetched) (lat lon : string) :
  (exists e, reversePlace fetch lat lon = Failed e)
  <-> fetch (placeUrl lat lon) = FetchError
      \/ fetch (placeUrl lat lon) = JsonError
      \/ (exists data v,
            fetch (placeUrl lat lon) = JsonBody data
            /\ country_code (addressOf data) = Some (CodeOther v)).
Proof.
  unfold reversePlace.
  destruct (fetch (placeUrl lat lon)) as [| |data].
  - split; [left; reflexivity | eexists; reflexivity].
  - split; [right; left; reflexivity | eexists; reflexivity].
  - destruct (country_code (addressOf data)) as [[code|v]|] eqn:Hcode.
    + split; [intros (e & [=])|].
      intros [[=] | [[=] | (d & v & [= <-] & Hv)]]. congruence.
    + split; [|eexists; reflexivity].
      intros _. right. right. exists data, v. split; [reflexivity | exact Hcode].
    + split; [intros (e & [=])|].
      intros [[=] | [[=] | (d & v & [= <-] & Hv)]]. congruence.
Qed.

Lemma fetchWeather_Failed (fetch : string -> Fetched) (lat lon : string) :
  (exists e, fetchWeather fetch lat lon = Failed e)
  <-> fetch (weatherUrl lat lon) = FetchError
      \/ fetch (weatherUrl lat lon) = JsonError
      \/ fetch (weatherUrl lat lon) = JsonBody None.
Proof.
  unfold fetchWeather.
  destruct (fetch (weatherUrl lat lon)) as [| |[j|]].
  - split; [left; reflexivity | eexists; reflexivity].
  - split; [right; left; reflexivity | eexists; reflexivity].
  - split; [intros (e & [=]) | intros [[=] | [[=] | [=]]]].
  - split; [right; right; reflexivity | eexists; reflexivity].
Qed.

(** X15: the promise of a weather click never rejects, whichever lookup
    settles first: the rejection of either lookup is caught.  The click
    first shows the loading box, then issues the place request and the
    weather request, in that order and whatever their fates (a failed
    place lookup does not keep the weather request from going out), and
    last sets one box.  That box is the loaded box, built from both
    results, when both lookups resolve; otherwise it is the error box with
    its fixed message, never a partly filled card.  The error box is set
    exactly when a request fails, an answer does not parse, the place
    answer has a [country_code] that is truthy and not a string, or the
    weather answer is [null]. *)
Theorem handleWeatherClick_final_box
  (order : Order) (fetch : string -> Fetched) (lat lon : string)
  (t0 t1 : nat) (log : list UiEvent) :
  exists final,
    handleWeatherClick_promise order fetch lat lon t0 t1 log
    = (Resolved tt,
       log ++ [SetWeatherBox (loadingBox t0); Fetch (placeUrl lat lon);
               Fetch (weatherUrl lat lon); SetWeatherBox final])
    /\ handleWeatherClick fetch lat lon t0 t1
       = [SetWeatherBox (loadingBox t0); Fetch (placeUrl lat lon);
          Fetch (weatherUrl lat lon); SetWeatherBox final]
    /\ match reversePlace fetch lat lon, fetchWeather fetch lat lon with
       | Resolved place, Resolved w => final = loadedBox place w t1
       | _, _ =>
           final = errorBox
           /\ error final = Some "Couldn’t fetch weather right now."
       end
    /\ (final = errorBox
        <-> (fetch (placeUrl lat lon) = FetchError
             \/ fetch (placeUrl lat lon) = JsonError
             \/ (exists data v,
                   fetch (placeUrl lat lon) = JsonBody data
                   /\ country_code (addressOf data) = Some (CodeOther v)))
            \/ (fetch (weatherUrl lat lon) = FetchError
                \/ fetch (weatherUrl lat lon) = JsonError
                \/ fetch (weatherUrl lat lon) = JsonBody None)).
Proof.
  eexists. split; [apply handleWeatherClick_promise_run|].
  split; [unfold handleWeatherClick;
          rewrite handleWeatherClick_promise_run; reflexivity|].
  rewrite <- reversePlace_Failed, <- fetchWeather_Failed.
  destruct (reversePlace fetch lat lon) as [place|e1],
           (fetchWeather fetch lat lon) as [w|e2].
  - split; [reflexivity|]. split; [discriminate|].
    intros [(e & [=]) | (e & [=])].
  - split; [split; reflexivity|].
    split; [intros _; right; eexists |]; reflexivity.
  - split; [split; reflexivity|].
    split; [intros _; left; eexists |]; reflexivity.
  - split; [split; reflexivity|].
    split; [intros _; left; eexists |]; reflexivity.
Qed.

Lemma handleWeatherClick_boxes
  (fetch : string -> Fetched) (lat lon : string) (t0 t1 : nat) :
  exists final,
    handleWeatherClick fetch lat lon t0 t1
    = [SetWeatherBox (loadingBox t0); Fetch (placeUrl lat lon);
       Fetch (weatherUrl lat lon); SetWeatherBox final]
    /\ ((exists place w,
           reversePlace fetch lat lon = Resolved place
           /\ fetchWeather fetch lat lon = Resolved w
           /\ final = loadedBox place w t1)
        \/ final = errorBox).
Proof.
  unfold handleWeatherClick. rewrite handleWeatherClick_promise_run.
  eexists. split; [reflexivity|].
  destruct (reversePlace fetch lat lon) as [place|];
    [|right; reflexivity].
  destruct (fetchWeather fetch lat lon) as [w|]; [|right; reflexivity].
  left. exists place, w. repeat split.
Qed.

Lemma handleWeatherClick_In
  (fetch : string -> Fetched) (lat lon : string) (t0 t1 : nat)
  (box : WeatherBox) :
  In (SetWeatherBox box) (handleWeatherClick fetch lat lon t0 t1) ->
  box = loadingBox t0
  \/ (exists place w,
        reversePlace fetch lat lon = Resolved place
        /\ fetchWeather fetch lat lon = Resolved w
        /\ box = loadedBox place w t1)
  \/ box = errorBox.
Proof.
  intros Hin.
  destruct (handleWeatherClick_boxes fetch lat lon t0 t1)
    as (final & Hrun & Hfinal).
  rewrite Hrun in Hin.
  destruct Hin as [[= <-] | [[=] | [[=] | [[= <-] | []]]]];
    [left; reflexivity | right; exact Hfinal].
Qed.

(** X16: every box that a weather click sets renders as a card with
    exactly one of its three sections: the loading line, the error line or
    the details.  The loading box and the error box never make the card
    throw; the loaded box does so only when the formatter refuses its
    time zone. *)
Theorem WeatherInfoCard_one_section
  (validTimeZone : string -> bool) (now : nat)
  (fetch : string -> Fetched) (lat lon : string) (t0 t1 : nat)
  (box : WeatherBox) :
  In (SetWeatherBox box) (handleWeatherClick fetch lat lon t0 t1) ->
  match WeatherInfoCard validTimeZone now (Some box) with
  | Card view => oneSection view
  | RangeError =>
      loading box = false /\ error box = None
      /\ exists tz, box_timezone box = Some tz /\ validTimeZone tz = false
  | Nothing => False
  end.
Proof.
  intros Hin.
  destruct (handleWeatherClick_In _ _ _ _ _ _ Hin)
    as [-> | [(place & w & _ & _ & ->) | ->]].
  - cbn. left. repeat split.
  - unfold WeatherInfoCard, loadedBox.
    cbn [box_timezone loading error]. rewrite str_Some.
    destruct (truthy (Some (report_timezone w))
              && negb (validTimeZone (report_timezone w))) eqn:Htz.
    + apply andb_prop in Htz as [_ Hvalid]. apply negb_true_iff in Hvalid.
      repeat split. exists (report_timezone w).
      split; [reflexivity | exact Hvalid].
    + right. right. repeat split. eexists. reflexivity.
  - cbn. right. left. repeat split. eexists. reflexivity.
Qed.

Lemma WeatherInfoCard_one_section_witness :
  oneSection
    {| loadingLine := false;
       errorLine := Some "Couldn’t fetch weather right now.";
       details := None |}.
Proof.
  exact (WeatherInfoCard_one_section (fun _ => true) 0
           (fun _ => FetchError) "0" "0" 1 2 errorBox
           ltac:(right; right; right; left; reflexivity)).
Defined.

Lemma fetchWeather_timezone (fetch : string -> Fetched) (lat lon : string)
  (w : Report) :
  fetchWeather fetch lat lon = Resolved w ->
  truthy (Some (report_timezone w)) = true.
Proof.
  unfold fetchWeather.
  destruct (fetch (weatherUrl lat lon)) as [| |[j|]]; try discriminate.
  intros [= <-]. unfold reportOf. cbn [report_timezone].
  destruct (str_orElse_truthy (timezone j) "UTC" ltac:(discriminate))
    as (Hne & _). simpl. apply negb_true_iff, String.eqb_neq, Hne.
Qed.

(** X17: when both lookups of a weather click resolve and the formatter
    accepts the reported time zone, the box that ends the click renders
    the details: the place name, or "Selected location" when the address
    gave no city, state or country; the conditions line of the reported
    code; and a time printed in the reported time zone, never in the
    browser's own zone.  The instant printed is [t1], the clock reading
    taken after both lookups have resolved (line 270): it is not the
    reading [t0] taken at the click (line 260), which only the loading
    box carries, so whenever the two readings differ the card does not
    show the time of the click. *)
Theorem WeatherInfoCard_loaded_details
  (validTimeZone : string -> bool) (now : nat)
  (fetch : string -> Fetched) (lat lon : string) (t0 t1 : nat)
  (place : Place) (w : Report) (box : WeatherBox) :
  reversePlace fetch lat lon = Resolved place ->
  fetchWeather fetch lat lon = Resolved w ->
  validTimeZone (report_timezone w) = true ->
  In (SetWeatherBox box) (handleWeatherClick fetch lat lon t0 t1) ->
  loading box = false ->
  exists d,
    WeatherInfoCard validTimeZone now (Some box)
    = Card {| loadingLine := false; errorLine := None; details := Some d |}
    /\ shownPlace d
       = (if nonEmptyString (placeName place) then placeName place
          else "Selected location")
    /\ shownTime d
       = {| timeZone := Some (report_timezone w); instant := t1 |}
    /\ shownConditions d = conditionsOf (report_weathercode w)
    /\ clickedAt (loadingBox t0) = Some t0
    /\ (t0 <> t1 -> instant (shownTime d) <> t0).
Proof.
  intros Hplace Hw Hvalid Hin Hloading.
  pose proof (fetchWeather_timezone _ _ _ _ Hw) as Htz.
  destruct (handleWeatherClick_In _ _ _ _ _ _ Hin)
    as [-> | [(place' & w' & Hplace' & Hw' & ->) | ->]].
  - discriminate Hloading.
  - rewrite Hplace in Hplace'. rewrite Hw in Hw'.
    injection Hplace' as <-. injection Hw' as <-.
    unfold WeatherInfoCard, loadedBox.
    cbn [box_timezone loading error box_placeName
         box_weathercode box_temperature box_windspeed clickedAt].
    rewrite str_Some, Htz, Hvalid. cbn [negb andb truthy].
    eexists. split; [reflexivity|].
    cbn [shownPlace shownTime shownConditions instant].
    split; [|split; [reflexivity|]; split; [reflexivity|];
             split; [reflexivity|]; intros Hne Heq; apply Hne; symmetry;
             exact Heq].
    unfold orElse, truthy, nonEmptyString.
    destruct (negb (String.eqb (placeName place) "")); reflexivity.
  - exfalso. clear - Hin Hplace Hw.
    unfold handleWeatherClick in Hin.
    rewrite handleWeatherClick_promise_run, Hplace, Hw in Hin.
    destruct Hin as [[=] | [[=] | [[=] | [[=] | []]]]].
Qed.

Lemma WeatherInfoCard_loaded_details_witness :
  exists d,
    WeatherInfoCard (fun _ => true) 0
      (Some (loadedBox (mkPlace "" "") (mkReport None None None "UTC") 9))
    = Card {| loadingLine := false; errorLine := None; details := Some d |}
    /\ shownPlace d = "Selected location"
    /\ shownTime d = {| timeZone := Some "UTC"; instant := 9 |}
    /\ shownConditions d = "—"
    /\ clickedAt (loadingBox 1) = Some 1
    /\ (1 <> 9 -> instant (shownTime d) <> 1).
Proof.
  apply (WeatherInfoCard_loaded_details (fun _ => true) 0
           (fun _ => JsonBody (Some (mkJsonObject None None None)))
           "0" "0" 1 9 (mkPlace "" "") (mkReport None None None "UTC")).
  - reflexivity.
  - reflexivity.
  - reflexivity.
  - right. right. right. left. reflexivity.
  - reflexivity.
Defined.

End WeatherLookup.

(** ** Click ripples *)

Section RippleState.
Import Ripples.

Lemma remove_app (i : string) (rs1 rs2 : list Ripple) :
  remove i (rs1 ++ rs2) = remove i rs1 ++ remove i rs2.
Proof. apply List.filter_app. Qed.

Lemma remove_fresh (i : string) (rs : list Ripple) :
  Forall (fun r => id r <> i) rs -> remove i rs = rs.
Proof.
  induction 1 as [|r rs Hr _ IH]; [reflexivity|].
  unfold remove in *. simpl. apply String.eqb_neq in Hr. rewrite Hr. simpl.
  rewrite IH. reflexivity.
Qed.

Lemma remove_comm (i j : string) (rs : list Ripple) :
  remove i (remove j rs) = remove j (remove i rs).
Proof.
  unfold remove. induction rs as [|r rs IH]; [reflexivity|]. simpl.
  destruct (String.eqb (id r) j) eqn:Hj, (String.eqb (id r) i) eqn:Hi;
    simpl; rewrite ?Hj, ?Hi; simpl; rewrite IH; reflexivity.
Qed.

Lemma remove_gone (i : string) (rs : list Ripple) :
  Forall (fun r => id r <> i) (remove i rs).
Proof.
  apply List.Forall_forall. intros r Hin.
  apply List.filter_In in Hin as [_ Hne].
  apply negb_true_iff, String.eqb_neq in Hne. exact Hne.
Qed.

Lemma remove_own (i : string) (px py : float) :
  remove i [mkRipple i px py] = [].
Proof. unfold remove. simpl. rewrite String.eqb_refl. reflexivity. Qed.

Lemma remove_other (i j : string) (px py : float) :
  i <> j -> remove i [mkRipple j px py] = [mkRipple j px py].
Proof.
  intros Hne. apply remove_fresh. constructor; [|constructor].
  simpl. congruence.
Qed.

(** X18: the cleanup armed by [addRipple] undoes its own insertion: when
    the drawn identifier is not yet in use, adding the ripple and then
    running the cleanup gives back the list as it was, and whatever the
    list the cleanup runs on, no ripple with that identifier is left. *)
Theorem addRipple_cleanup_restores
  (i : string) (px py : float) (rs : list Ripple) :
  Forall (fun r => id r <> i) rs ->
  later (addRipple i px py) (now (addRipple i px py) rs) = rs
  /\ forall rs', Forall (fun r => id r <> i) (later (addRipple i px py) rs').
Proof.
  intros Hfresh. cbn [later now addRipple]. unfold append. split.
  - rewrite remove_app, remove_own, app_nil_r. apply remove_fresh, Hfresh.
  - intros rs'. apply remove_gone.
Qed.

Lemma addRipple_cleanup_restores_witness :
  later (addRipple "k3f9" 10 20)
    (now (addRipple "k3f9" 10 20) [mkRipple "a1" 1 2])
  = [mkRipple "a1" 1 2].
Proof.
  apply (addRipple_cleanup_restores "k3f9" 10 20 [mkRipple "a1" 1 2]).
  repeat constructor. discriminate.
Defined.

(** X19: two clicks with different identifiers do not disturb each other:
    the cleanup of one leaves the ripple of the other in place, cleanups
    commute, and when both identifiers are new every order in which the
    two cleanups can run after the two insertions leaves the list as it
    was before the clicks. *)
Theorem addRipple_clicks_independent
  (i j : string) (px py qx qy : float) (rs : list Ripple) :
  i <> j ->
  let a := addRipple i px py in
  let b := addRipple j qx qy in
  later a (now b rs) = now b (later a rs)
  /\ later a (later b rs) = later b (later a rs)
  /\ (Forall (fun r => id r <> i) rs -> Forall (fun r => id r <> j) rs ->
      later b (later a (now b (now a rs))) = rs
      /\ later a (later b (now b (now a rs))) = rs
      /\ later b (now b (later a (now a rs))) = rs).
Proof.
  intros Hne a b. subst a b. cbn [later now addRipple]. unfold append.
  split; [|split].
  - rewrite remove_app, (remove_other i j) by exact Hne. reflexivity.
  - apply remove_comm.
  - intros Hi Hj.
    assert (Hboth : remove j (remove i ((rs ++ [mkRipple i px py])
                                        ++ [mkRipple j qx qy])) = rs).
    { rewrite !remove_app, (remove_own i), (remove_other i j _ _ Hne).
      rewrite (remove_fresh i rs Hi), (remove_fresh j rs Hj), (remove_own j).
      simpl. rewrite !app_nil_r. reflexivity. }
    split; [exact Hboth|]. split.
    + rewrite remove_comm. exact Hboth.
    + rewrite !remove_app, (remove_own i), (remove_own j).
      rewrite (remove_fresh i rs Hi), (remove_fresh j rs Hj).
      simpl. rewrite !app_nil_r. reflexivity.
Qed.

Lemma addRipple_clicks_independent_witness :
  later (addRipple "b" 3 4)
    (later (addRipple "a" 1 2)
       (now (addRipple "b" 3 4) (now (addRipple "a" 1 2) [mkRipple "z" 0 0])))
  = [mkRipple "z" 0 0].
Proof.
  refine (proj1 (proj2 (proj2 (addRipple_clicks_independent "a" "b" 1 2 3 4
                                 [mkRipple "z" 0 0] _)) _ _)).
  - discriminate.
  - repeat constructor. discriminate.
  - repeat constructor. discriminate.
Defined.

(** X20: the identifiers of the ripples, which are their rendering keys,
    stay pairwise distinct: inserting a ripple with a new identifier and
    running any cleanup both keep them so, and a cleanup only deletes
    entries, keeping the remaining ripples in their order. *)
Theorem ripple_ids_stay_distinct
  (i : string) (px py : float) (rs : list Ripple) :
  NoDup (map id rs) ->
  (Forall (fun r => id r <> i) rs ->
   NoDup (map id (now (addRipple i px py) rs)))
  /\ NoDup (map id (later (addRipple i px py) rs))
  /\ sublist (later (addRipple i px py) rs) rs.
Proof.
  intros Hnodup. cbn [later now addRipple]. unfold append, remove.
  assert (Hsub : sublist (List.filter (fun r => negb (String.eqb (id r) i)) rs)
                   rs).
  { clear Hnodup. induction rs as [|r rs IH]; simpl; [constructor|].
    destruct (negb (String.eqb (id r) i)); constructor; exact IH. }
  split; [|split; [|exact Hsub]].
  - intros Hfresh. rewrite map_app. apply NoDup_app. split; [exact Hnodup|].
    split; [|apply NoDup_singleton].
    intros k Hk [<-|[]]%list_elem_of_In. cbn [id] in Hk.
    apply list_elem_of_In, List.in_map_iff in Hk as (r & Hr & Hin).
    rewrite List.Forall_forall in Hfresh. apply (Hfresh r Hin). exact Hr.
  - apply (sublist_NoDup _ _ Hnodup).
    change (map id) with (fmap (M:=list) id). rewrite Hsub. reflexivity.
Qed.

Lemma ripple_ids_stay_distinct_witness :
  NoDup (map id (now (addRipple "b" 3 4) [mkRipple "a" 1 2])).
Proof.
  refine (proj1 (ripple_ids_stay_distinct "b" 3 4 [mkRipple "a" 1 2] _) _).
  - repeat constructor. intros []%list_elem_of_In.
  - repeat constructor. discriminate.
Defined.

End RippleState.
